(** * poke-mcp-didatodolist: the credential subsystem and the request gateway

    A shallow embedding of
      - [src/utils/asgi_auth.py]          (module [Gateway]),
      - [src/http_server.py]              (modules [HttpServer] and [Rpc]),
      - [src/utils/oauth_auth.py]         (modules [Callback] and [OAuth]),
      - [src/scripts/oauth_authenticate.py] (modules [EnvFile] and [Flows]),
      - [src/mcp_server.py]               (module [McpServer]),
    with the Python built-ins these files call collected in module [Py]. *)

From Stdlib Require Import ZArith NArith List String Ascii Lia DecimalString.
From Stdlib.Strings Require Import Byte.
From stdpp Require Import base decidable option list gmap strings countable.
Import ListNotations.

Local Open Scope N_scope.

(** A Python [str] is a sequence of Unicode code points, a [bytes] object a
    sequence of bytes. *)
Abbreviation str := (list N).
Abbreviation bytes := (list byte).

(** ** Python built-ins *)
Module Py.

(** A literal of the source, written as an ASCII string. *)
Definition lit (s : string) : str := map N_of_ascii (list_ascii_of_string s).

(** [b"..."] *)
Definition blit (s : string) : bytes := list_byte_of_string s.

(** [bool(s)] for a string: non-empty. *)
Definition truthy (s : str) : bool :=
  match s with [] => false | _ :: _ => true end.

(** [bool(o)] for a value that is a string or [None]. *)
Definition truthy_opt (o : option str) : bool :=
  match o with Some s => truthy s | None => false end.

(** [s.startswith(p)] *)
Fixpoint startswith (s p : str) {struct p} : bool :=
  match p, s with
  | [], _ => true
  | _ :: _, [] => false
  | a :: p', b :: s' => (a =? b) && startswith s' p'
  end.

(** [s.endswith(p)] *)
Definition endswith (s p : str) : bool := startswith (rev s) (rev p).

(** [s.replace(old, new, 1)]: the leftmost occurrence of [old] is replaced;
    the empty [old] occurs at position 0. *)
Fixpoint replace_first (old new s : str) : str :=
  if startswith s old then new ++ drop (length old) s
  else match s with
       | [] => []
       | c :: s' => c :: replace_first old new s'
       end.

(** [s.replace(old, new)]: every occurrence, left to right, without overlap.
    [skip] counts the characters of a match still to be dropped. *)
Fixpoint replace_from (old new : str) (skip : nat) (s : str) : str :=
  match s with
  | [] => []
  | c :: s' =>
      match skip with
      | S k => replace_from old new k s'
      | O => if startswith s old
             then new ++ replace_from old new (pred (length old)) s'
             else c :: replace_from old new O s'
      end
  end.

Definition replace_all (old new s : str) : str :=
  match old with
  | [] => new ++ concat (map (fun c => c :: new) s)
  | _ :: _ => replace_from old new O s
  end.

(** [c.isspace()]: the code points [str.strip()] removes. *)
Definition isspace (c : N) : bool :=
  ((9 <=? c) && (c <=? 13)) || ((28 <=? c) && (c <=? 32))
  || (c =? 133) || (c =? 160) || (c =? 5760)
  || ((8192 <=? c) && (c <=? 8202))
  || (c =? 8232) || (c =? 8233) || (c =? 8239) || (c =? 8287) || (c =? 12288).

(** [s.lstrip()], [s.rstrip()], [s.strip()] *)
Fixpoint lstrip (s : str) : str :=
  match s with
  | c :: s' => if isspace c then lstrip s' else s
  | [] => []
  end.

Definition rstrip (s : str) : str := rev (lstrip (rev s)).

Definition strip (s : str) : str := rstrip (lstrip s).

(** [c.lower()] on the code points below 256 (the only ones a header name
    decoded from Latin-1 holds): the ASCII capitals and the Latin-1 capitals
    U+00C0..U+00DE except the multiplication sign U+00D7. *)
Definition lower_char (c : N) : N :=
  if ((65 <=? c) && (c <=? 90)) || ((192 <=? c) && (c <=? 222) && negb (c =? 215))
  then c + 32 else c.

Definition lower (s : str) : str := map lower_char s.

(** [b.decode("latin1")]: never fails. *)
Definition decode_latin1 (b : bytes) : str := map Byte.to_N b.

(** [s.encode("latin1")]: [None] stands for [UnicodeEncodeError], raised when
    a code point is above 255. *)
Fixpoint encode_latin1 (s : str) : option bytes :=
  match s with
  | [] => Some []
  | c :: s' =>
      match Byte.of_N c, encode_latin1 s' with
      | Some b, Some bs => Some (b :: bs)
      | _, _ => None
      end
  end.

(** [sep.join(parts)] *)
Fixpoint join (sep : str) (parts : list str) : str :=
  match parts with
  | [] => []
  | [p] => p
  | p :: ps => p ++ sep ++ join sep ps
  end.

(** [sub in s] for strings and for bytes: a contiguous occurrence. *)
Definition contains {A} (s sub : list A) : Prop :=
  exists pre post, s = pre ++ sub ++ post.

(** [c in s] for one character. *)
Definition has_char (c : N) (s : str) : bool := existsb (N.eqb c) s.

(** [s.split(sep)] for a separator of one character: always at least one
    piece. *)
Fixpoint split (sep : N) (s : str) : list str :=
  match s with
  | [] => [[]]
  | c :: s' =>
      if c =? sep then [] :: split sep s'
      else match split sep s' with
           | [] => [[c]]
           | p :: ps => (c :: p) :: ps
           end
  end.

(** [s.split(sep, 1)]: [None] when the result has one piece only, otherwise
    the text before and after the first [sep]. *)
Fixpoint split_once (sep : N) (s : str) : option (str * str) :=
  match s with
  | [] => None
  | c :: s' =>
      if c =? sep then Some ([], s')
      else match split_once sep s' with
           | Some (a, b) => Some (c :: a, b)
           | None => None
           end
  end.

(** The line boundaries of [str.splitlines()]. *)
Definition is_linebreak (c : N) : bool :=
  ((10 <=? c) && (c <=? 13)) || ((28 <=? c) && (c <=? 30))
  || (c =? 133) || (c =? 8232) || (c =? 8233).

(** No character of [s] is a line boundary. *)
Definition one_line (s : str) : bool := forallb (fun c => negb (is_linebreak c)) s.

(** [s.splitlines()]: the boundary ends a line and is dropped; CR LF is one
    boundary; no empty last line. *)
Fixpoint splitlines (s : str) : list str :=
  match s with
  | [] => []
  | c :: s' =>
      if is_linebreak c then
        match s' with
        | d :: s'' =>
            if (c =? 13) && (d =? 10) then [] :: splitlines s''
            else [] :: splitlines s'
        | [] => [] :: splitlines s'
        end
      else match splitlines s' with
           | [] => [[c]]
           | l :: ls => (c :: l) :: ls
           end
  end.

(** Reading a file opened in text mode (universal newlines): CR LF and a
    lone CR arrive as LF. Writing on POSIX changes nothing. *)
Fixpoint universal_newlines (s : str) : str :=
  match s with
  | [] => []
  | c :: s' =>
      if c =? 13 then
        match s' with
        | d :: s'' =>
            if d =? 10 then 10 :: universal_newlines s''
            else 10 :: universal_newlines s'
        | [] => [10]
        end
      else c :: universal_newlines s'
  end.

(** *** Values

    The attributes of the OAuth client and the entries of a decoded JSON
    object hold [None], a string, or a value of another type (a number, a
    boolean, a list, a dict). Of the last kind the code observes three
    things only: the text [str()] gives, the truth value, and whether [v[:n]]
    works (it raises [TypeError] otherwise). *)
Inductive pyval :=
| PNone
| PStr (s : str)
| POther (text : str) (truth sliceable : bool).

(** [bool(v)] *)
Definition truth (v : pyval) : bool :=
  match v with
  | PNone => false
  | PStr s => truthy s
  | POther _ t _ => t
  end.

(** [a or b] *)
Definition por (a b : pyval) : pyval := if truth a then a else b.

(** [f"{v}"] *)
Definition to_str (v : pyval) : str :=
  match v with
  | PNone => lit "None"
  | PStr s => s
  | POther text _ _ => text
  end.

(** [v[:n]] raises for a value that is neither a string nor a list. *)
Definition sliceable_val (v : pyval) : bool :=
  match v with
  | PNone => false
  | PStr _ => true
  | POther _ _ sl => sl
  end.

(** [d.get(k)] *)
Definition get (d : gmap str pyval) (k : str) : pyval := default PNone (d !! k).

(** *** [urllib.parse]: decoding a query string *)

Definition hexval (c : N) : option N :=
  if (48 <=? c) && (c <=? 57) then Some (c - 48)
  else if (65 <=? c) && (c <=? 70) then Some (c - 55)
  else if (97 <=? c) && (c <=? 102) then Some (c - 87)
  else None.

(** [unquote_to_bytes] on ASCII text: [%xx] with two hexadecimal digits is
    one byte, any other [%] stays. *)
Fixpoint unquote_to_bytes (s : str) : list N :=
  match s with
  | [] => []
  | c :: s' =>
      if c =? 37 then
        match s' with
        | h1 :: h2 :: s'' =>
            match hexval h1, hexval h2 with
            | Some a, Some b => (16 * a + b) :: unquote_to_bytes s''
            | _, _ => c :: unquote_to_bytes s'
            end
        | _ => c :: unquote_to_bytes s'
        end
      else c :: unquote_to_bytes s'
  end.

Definition is_continuation (b : N) : bool := (128 <=? b) && (b <? 192).

Definition replacement : N := 65533.

(** [bytes.decode("utf-8", "replace")] as CPython does it: an invalid start
    byte, or a start byte with the valid part of its sequence, becomes
    U+FFFD; a sequence cut by the end of the data becomes one U+FFFD. *)
Fixpoint utf8_decode (bs : list N) : str :=
  match bs with
  | [] => []
  | b1 :: r1 =>
      if b1 <? 128 then b1 :: utf8_decode r1
      else if b1 <? 194 then replacement :: utf8_decode r1
      else if b1 <? 224 then
        match r1 with
        | [] => [replacement]
        | b2 :: r2 =>
            if is_continuation b2
            then ((b1 - 192) * 64 + (b2 - 128)) :: utf8_decode r2
            else replacement :: utf8_decode r1
        end
      else if b1 <? 240 then
        match r1 with
        | [] => [replacement]
        | b2 :: r2 =>
            if negb (is_continuation b2)
               || ((b1 =? 224) && (b2 <? 160)) || ((b1 =? 237) && (160 <=? b2))
            then replacement :: utf8_decode r1
            else match r2 with
                 | [] => [replacement]
                 | b3 :: r3 =>
                     if is_continuation b3
                     then ((b1 - 224) * 4096 + (b2 - 128) * 64 + (b3 - 128))
                          :: utf8_decode r3
                     else replacement :: utf8_decode r2
                 end
        end
      else if b1 <? 245 then
        match r1 with
        | [] => [replacement]
        | b2 :: r2 =>
            if negb (is_continuation b2)
               || ((b1 =? 240) && (b2 <? 144)) || ((b1 =? 244) && (144 <=? b2))
            then replacement :: utf8_decode r1
            else match r2 with
                 | [] => [replacement]
                 | b3 :: r3 =>
                     if negb (is_continuation b3)
                     then replacement :: utf8_decode r2
                     else match r3 with
                          | [] => [replacement]
                          | b4 :: r4 =>
                              if is_continuation b4
                              then ((b1 - 240) * 262144 + (b2 - 128) * 4096
                                    + (b3 - 128) * 64 + (b4 - 128))
                                   :: utf8_decode r4
                              else replacement :: utf8_decode r3
                          end
                 end
        end
      else replacement :: utf8_decode r1
  end.

(** [bytes.decode("utf-8")], strict: [None] is [UnicodeDecodeError], raised
    wherever the decoder above would put U+FFFD. *)
Fixpoint utf8_decode_strict (bs : list N) : option str :=
  match bs with
  | [] => Some []
  | b1 :: r1 =>
      if b1 <? 128 then cons b1 <$> utf8_decode_strict r1
      else if b1 <? 194 then None
      else if b1 <? 224 then
        match r1 with
        | b2 :: r2 =>
            if is_continuation b2
            then cons ((b1 - 192) * 64 + (b2 - 128)) <$> utf8_decode_strict r2
            else None
        | [] => None
        end
      else if b1 <? 240 then
        match r1 with
        | b2 :: b3 :: r3 =>
            if negb (is_continuation b2)
               || ((b1 =? 224) && (b2 <? 160)) || ((b1 =? 237) && (160 <=? b2))
               || negb (is_continuation b3)
            then None
            else cons ((b1 - 224) * 4096 + (b2 - 128) * 64 + (b3 - 128))
                   <$> utf8_decode_strict r3
        | _ => None
        end
      else if b1 <? 245 then
        match r1 with
        | b2 :: b3 :: b4 :: r4 =>
            if negb (is_continuation b2)
               || ((b1 =? 240) && (b2 <? 144)) || ((b1 =? 244) && (144 <=? b2))
               || negb (is_continuation b3) || negb (is_continuation b4)
            then None
            else cons ((b1 - 240) * 262144 + (b2 - 128) * 4096
                       + (b3 - 128) * 64 + (b4 - 128))
                   <$> utf8_decode_strict r4
        | _ => None
        end
      else None
  end.

(** A code point that UTF-8 encodes: not a surrogate (a [str] holds no code
    point above U+10FFFF). *)
Definition utf8_encodable_char (c : N) : bool :=
  (c <? 55296) || ((57343 <? c) && (c <? 1114112)).

Definition utf8_encodable (s : str) : bool := forallb utf8_encodable_char s.

(** The bytes of one code point. *)
Definition utf8_encode_char (c : N) : list N :=
  if c <? 128 then [c]
  else if c <? 2048 then [192 + c / 64; 128 + c mod 64]
  else if c <? 65536 then [224 + c / 4096; 128 + (c / 64) mod 64; 128 + c mod 64]
  else [240 + c / 262144; 128 + (c / 4096) mod 64; 128 + (c / 64) mod 64;
        128 + c mod 64].

(** The byte of a number below 256. *)
Definition byte_of_N (n : N) : byte := default Byte.x00 (Byte.of_N n).

(** [s.encode("utf-8")], strict: [None] is [UnicodeEncodeError], raised when
    [s] holds a surrogate. *)
Definition utf8_encode (s : str) : option bytes :=
  if utf8_encodable s
  then Some (map byte_of_N (concat (map utf8_encode_char s)))
  else None.

(** The loop of [unquote]: each maximal ASCII run ([run], reversed, is the
    one being read) is unquoted to bytes and decoded; the characters
    between the runs are kept. *)
Fixpoint unquote_runs (run s : str) : str :=
  match s with
  | [] => utf8_decode (unquote_to_bytes (rev run))
  | c :: s' =>
      if c <? 128 then unquote_runs (c :: run) s'
      else utf8_decode (unquote_to_bytes (rev run)) ++ c :: unquote_runs [] s'
  end.

(** [urllib.parse.unquote(s)] *)
Definition unquote (s : str) : str :=
  if has_char 37 s then unquote_runs [] s else s.

(** [s.replace('+', ' ')] *)
Definition plus_to_space (s : str) : str :=
  map (fun c => if c =? 43 then 32 else c) s.

(** One field of [parse_qsl]: skipped when it is empty, has no [=], or has
    an empty value. *)
Definition parse_field (name_value : str) : list (str * str) :=
  match split_once 61 name_value with
  | Some (n, v) =>
      if truthy v then [(unquote (plus_to_space n), unquote (plus_to_space v))]
      else []
  | None => []
  end.

(** [urllib.parse.parse_qsl(qs)] with its defaults. *)
Definition parse_qsl (qs : str) : list (str * str) :=
  if truthy qs then concat (map parse_field (split 38 qs)) else [].

(** [urllib.parse.parse_qs(qs)]: the values of a name, in order. *)
Definition parse_qs (qs : str) : gmap str (list str) :=
  fold_left (fun m nv => <[nv.1 := default [] (m !! nv.1) ++ [nv.2]]> m)
            (parse_qsl qs) ∅.

(** [url.lstrip(_WHATWG_C0_CONTROL_OR_SPACE)] *)
Fixpoint dropwhile_c0 (s : str) : str :=
  match s with
  | c :: s' => if c <=? 32 then dropwhile_c0 s' else s
  | [] => []
  end.

(** The query component [urllib.parse.urlsplit] gives for a URL it accepts:
    leading control characters and spaces are stripped, tab, CR and LF
    removed, the fragment cut off at the first [#], and the query is what
    follows the first [?]. *)
Definition url_query (url : str) : str :=
  let url := dropwhile_c0 url in
  let url := List.filter (fun c => negb ((c =? 9) || (c =? 13) || (c =? 10))) url in
  let url := match split_once 35 url with Some (a, _) => a | None => url end in
  match split_once 63 url with Some (_, q) => q | None => [] end.

(** A value that comes back from [parse_qs] as it is without having been
    percent-encoded: not empty, and free of [&], [#], [%], [+], tab, LF and
    CR. *)
Definition url_safe (v : str) : bool :=
  truthy v
  && negb (has_char 38 v) && negb (has_char 35 v) && negb (has_char 37 v)
  && negb (has_char 43 v) && negb (has_char 9 v) && negb (has_char 10 v)
  && negb (has_char 13 v).

End Py.

Import Py.

(** ** The API-key gateway ([src/utils/asgi_auth.py]) *)
Module Gateway.

(** The fields [__init__] stores; the wrapped [app] is the environment. *)
Record ApiKeyAuthMiddleware := {
  header_name : str;
  expected_key : str;
  sse_path : str;
  rewrite_to : option str
}.

(** [ApiKeyAuthMiddleware.__init__], lines 12-20; [environ] is [os.environ]. *)
Definition init (environ : gmap str str) (header_name : str)
    (expected_key : option str) (sse_path : str) (rewrite_to : option str)
  : ApiKeyAuthMiddleware :=
  {| header_name := lower header_name;
     expected_key :=
       if truthy_opt expected_key then default [] expected_key
       else default (lit "123") (environ !! lit "MCP_API_KEY");
     sse_path := sse_path;
     rewrite_to := rewrite_to |}.

(** [with_api_key_auth] with the defaults of its signature, lines 56-69. *)
Definition with_api_key_auth (environ : gmap str str)
    (expected_key rewrite_to : option str) : ApiKeyAuthMiddleware :=
  init environ (lit "x-api-key") expected_key (lit "/mcp") rewrite_to.

(** An ASGI connection scope: the keys the middleware reads or writes, typed
    as the ASGI specification types them, and the remaining entries. A key
    that may be missing is an [option]. *)
Record scope := {
  s_type : option str;
  s_path : option str;
  s_raw_path : option bytes;
  s_headers : option (list (bytes * bytes));
  s_rest : list (str * str)
}.

(** The messages handed to [send]. *)
Inductive message :=
| ResponseStart (status : Z) (headers : list (bytes * bytes))
| ResponseBody (body : bytes) (more_body : bool).

Inductive exn := UnicodeEncodeError.

(** What one call of the middleware does: it answers by itself and returns
    (the app is not called), it calls the wrapped app with a scope, or it
    raises. *)
Inductive outcome :=
| Respond (sent : list message)
| CallApp (sc : scope)
| Raise (e : exn).

(** The dict comprehension of line 29: a later header of the same lowered
    name overwrites an earlier one. *)
Definition headers_dict (hs : list (bytes * bytes)) : gmap str str :=
  fold_left (fun m kv => <[lower (decode_latin1 kv.1) := decode_latin1 kv.2]> m) hs ∅.

Definition unauthorized_body : bytes :=
  blit "Unauthorized: missing or invalid x-api-key".

Definition unauthorized : list message :=
  [ ResponseStart 401 [(blit "content-type", blit "text/plain; charset=utf-8")];
    ResponseBody unauthorized_body false ].

(** [scope = dict(scope); scope["path"] = ...; scope["raw_path"] = ...] *)
Definition set_path (sc : scope) (new_path : str) (raw : bytes) : scope :=
  {| s_type := s_type sc;
     s_path := Some new_path;
     s_raw_path := Some raw;
     s_headers := s_headers sc;
     s_rest := s_rest sc |}.

(** Line 27: the path is the external one, or already the internal one. *)
Definition is_target (self : ApiKeyAuthMiddleware) (path : str) : bool :=
  startswith path (sse_path self)
  || (truthy_opt (rewrite_to self) && startswith path (default [] (rewrite_to self))).

(** [ApiKeyAuthMiddleware.__call__], lines 22-53. *)
Definition call (self : ApiKeyAuthMiddleware) (sc : scope) : outcome :=
  if bool_decide (s_type sc = Some (lit "http")) then
    let path := default [] (s_path sc) in
    if is_target self path then
      let headers := headers_dict (default [] (s_headers sc)) in
      let api_key := headers !! header_name self in
      if bool_decide (api_key ≠ Some (expected_key self)) then
        Respond unauthorized
      else if truthy_opt (rewrite_to self) && startswith path (sse_path self) then
        let new_path :=
          replace_first (sse_path self) (default [] (rewrite_to self)) path in
        match encode_latin1 new_path with
        | Some raw => CallApp (set_path sc new_path raw)
        | None => Raise UnicodeEncodeError
        end
      else CallApp sc
    else CallApp sc
  else CallApp sc.

(** The value of the configured header that the check compares. *)
Definition presented (self : ApiKeyAuthMiddleware) (sc : scope) : option str :=
  headers_dict (default [] (s_headers sc)) !! header_name self.

(** An HTTP request scope. *)
Definition http_scope (path : str) (hs : list (bytes * bytes)) : scope :=
  {| s_type := Some (lit "http"); s_path := Some path;
     s_raw_path := None;
     s_headers := Some hs; s_rest := [(lit "method", lit "GET")] |}.

End Gateway.

(** ** The bearer check of the MCP endpoint ([src/http_server.py]) *)
Module HttpServer.

(** Lines 73-78: the module reads the secret once, and falls back to
    ["123"] when the variable is unset or empty. *)
Definition load_api_key (environ : gmap str str) : str :=
  let API_KEY := environ !! lit "MCP_API_KEY" in
  if negb (truthy_opt API_KEY) then lit "123" else default [] API_KEY.

(** Starlette's [request.headers.get(key, default)]: the ASGI header list
    holds lower-case names; the first header whose name is the lowered [key]
    gives the value, decoded as Latin-1. *)
Fixpoint headers_get (hs : list (bytes * bytes)) (key dflt : str) : str :=
  match hs with
  | [] => dflt
  | (k, v) :: hs' =>
      if bool_decide (decode_latin1 k = lower key) then decode_latin1 v
      else headers_get hs' key dflt
  end.

(** The token [verify_api_key] extracts, lines 97-109; [None] is Python's
    [None]. *)
Definition token_of (hs : list (bytes * bytes)) : option str :=
  let auth_header := headers_get hs (lit "Authorization") [] in
  let api_key_header := headers_get hs (lit "X-API-Key") [] in
  let x_api_key_header := headers_get hs (lit "x-api-key") [] in
  if startswith auth_header (lit "Bearer ") then
    Some (strip (replace_all (lit "Bearer ") [] auth_header))
  else if truthy api_key_header then Some (strip api_key_header)
  else if truthy x_api_key_header then Some (strip x_api_key_header)
  else None.

(** [verify_api_key], lines 90-114; [API_KEY] is the module's global. *)
Definition verify_api_key (API_KEY : option str) (hs : list (bytes * bytes))
  : bool :=
  if negb (truthy_opt API_KEY) then true
  else
    let token := token_of hs in
    if negb (truthy_opt token) then false
    else bool_decide (token = API_KEY).

(** The body of the 401 answer. *)
Record jsonrpc_error := {
  jsonrpc : str;
  code : Z;
  message : str
}.

(** What [mcp_endpoint] does first, lines 479-493: it answers 401, or goes
    on to read the request body ([await request.json()]) and dispatch. *)
Inductive endpoint_step :=
| JSONResponse (status_code : Z) (content : jsonrpc_error)
| ReadBody.

Definition unauthorized : endpoint_step :=
  JSONResponse 401
    {| jsonrpc := lit "2.0";
       code := (-32001)%Z;
       message := lit "Unauthorized: Invalid or missing API key" |}.

Definition mcp_endpoint (API_KEY : option str) (hs : list (bytes * bytes))
  : endpoint_step :=
  if truthy_opt API_KEY && negb (verify_api_key API_KEY hs) then unauthorized
  else ReadBody.

(** The endpoint as the module runs it: [API_KEY] is what line 73 loaded. *)
Definition served (environ : gmap str str) (hs : list (bytes * bytes))
  : endpoint_step :=
  mcp_endpoint (Some (load_api_key environ)) hs.

End HttpServer.

(** ** The callback listener ([src/utils/oauth_auth.py], lines 17-65 and
    113-144) *)
Module Callback.

Inductive page := SuccessPage | ErrorPage.

(** [send_response(status)], the content type header, and the page. *)
Record response := {
  status : Z;
  content_type : str;
  body : page
}.

Definition html : str := lit "text/html; charset=utf-8".

Definition success : response :=
  {| status := 200; content_type := html; body := SuccessPage |}.

Definition failure : response :=
  {| status := 400; content_type := html; body := ErrorPage |}.

(** What a client gets back: a page of the handler, an error answer of
    the library ([send_error(status)]), or nothing. *)
Inductive answer :=
| Page (r : response)
| LibraryError (status : Z)
| NoAnswer.

(** What arrives at the server: a request the library parses, with its
    method and its target, or something [parse_request] refuses and the
    library answers by itself ([status], for instance 400 for a malformed
    request line; [None] for a connection closed without a request line,
    which gets nothing). *)
Inductive request :=
| Refused (status : option Z)
| Request (command path : str).

Section Handler.

(** [urlparse(path).query], taken as the library computes it; [None] is the
    [ValueError] it raises for some targets. *)
Variable urlparse_query : str -> option str.

(** The parsed query of a request target. *)
Definition params_of (path : str) : option (gmap str (list str)) :=
  parse_qs <$> urlparse_query path.

(** [OAuthCallbackHandler.do_GET], lines 22-61. The first component is the
    class attribute [authorization_code] after the call; the second is the
    response, [None] when the call raises before any response is sent
    ([urlparse] raising [ValueError], [params['code'][0]] raising
    [IndexError]). *)
Definition do_GET (authorization_code : option str) (path : str)
  : option str * option response :=
  match params_of path with
  | Some params =>
      match params !! lit "code" with
      | Some values =>
          match values with
          | c :: _ => (Some c, Some success)
          | [] => (authorization_code, None)
          end
      | None => (authorization_code, Some failure)
      end
  | None => (authorization_code, None)
  end.

(** One [server.handle_request()]. [BaseHTTPRequestHandler] calls the
    method [do_<command>] of the handler, and answers 501 when there is
    none: the handler class defines [do_GET] only. An exception of the
    handler is caught by the server, which closes the connection. *)
Definition handle_request (authorization_code : option str) (req : request)
  : option str * answer :=
  match req with
  | Refused (Some status) => (authorization_code, LibraryError status)
  | Refused None => (authorization_code, NoAnswer)
  | Request command path =>
      if bool_decide (command = lit "GET") then
        let r := do_GET authorization_code path in
        (r.1, match r.2 with Some resp => Page resp | None => NoAnswer end)
      else (authorization_code, LibraryError 501)
  end.

(** [run_server], lines 133-135: one [handle_request] per incoming request
    while the attribute is [None]. [incoming] are the requests that arrive
    before the caller stops waiting; with none left the thread is blocked
    in [handle_request]. *)
Fixpoint run_server (authorization_code : option str) (incoming : list request)
  : option str * list answer :=
  match authorization_code with
  | Some _ => (authorization_code, [])
  | None =>
      match incoming with
      | [] => (authorization_code, [])
      | req :: rest =>
          let r := handle_request authorization_code req in
          let k := run_server r.1 rest in
          (k.1, r.2 :: k.2)
      end
  end.

(** [start_callback_server], lines 113-144: the attribute is reset, the
    server thread runs, and the caller gets the attribute's value when the
    thread has ended or the join has timed out. *)
Definition start_callback_server (incoming : list request) : option str :=
  (run_server None incoming).1.



(** The code a request carries: the first value of the [code] parameter of
    the query of a GET request. *)
Definition code_of (req : request) : option str :=
  match req with
  | Request command path =>
      if bool_decide (command = lit "GET")
      then params_of path ≫= (fun params => params !! lit "code" ≫= head)
      else None
  | Refused _ => None
  end.

(** A request carries a [code] parameter. *)
Definition carries_code (req : request) : Prop := is_Some (code_of req).

End Handler.

(** [urlparse] as [url_query] models it, for the targets it accepts. *)
Definition accepts (url : str) : option str := Some (url_query url).

End Callback.

(** ** The OAuth client ([src/utils/oauth_auth.py], lines 68-363) *)
Module OAuth.

Definition BASE_URL : str := lit "https://api.dida365.com/open/v1".
Definition AUTH_URL : str := lit "https://dida365.com/oauth/authorize".
Definition TOKEN_URL : str := lit "https://dida365.com/oauth/token".

Record DidaOAuthClient := {
  client_id : pyval;
  client_secret : pyval;
  redirect_uri : pyval;
  access_token : pyval;
  refresh_token : pyval
}.

Definition env_get (environ : gmap str str) (k : str) : pyval :=
  match environ !! k with Some v => PStr v | None => PNone end.

(** [DidaOAuthClient.__init__], lines 76-90. *)
Definition init (environ : gmap str str) (client_id client_secret : pyval)
    (redirect_uri : pyval) : DidaOAuthClient :=
  {| client_id := por client_id (env_get environ (lit "DIDA_CLIENT_ID"));
     client_secret := por client_secret (env_get environ (lit "DIDA_CLIENT_SECRET"));
     redirect_uri :=
       match environ !! lit "DIDA_REDIRECT_URI" with
       | Some v => PStr v
       | None => redirect_uri
       end;
     access_token := PNone;
     refresh_token := PNone |}.

Definition set_tokens (self : DidaOAuthClient) (access refresh : pyval)
  : DidaOAuthClient :=
  {| client_id := client_id self;
     client_secret := client_secret self;
     redirect_uri := redirect_uri self;
     access_token := access;
     refresh_token := refresh |}.

(** [get_authorization_url], lines 92-111. *)
Definition get_authorization_url (self : DidaOAuthClient) (scope : str) : str :=
  let params :=
    [ (lit "client_id", client_id self);
      (lit "scope", PStr scope);
      (lit "state", PStr (lit "random_state"));
      (lit "redirect_uri", redirect_uri self);
      (lit "response_type", PStr (lit "code")) ] in
  let query_string :=
    join (lit "&") (map (fun kv => kv.1 ++ lit "=" ++ to_str kv.2) params) in
  AUTH_URL ++ lit "?" ++ query_string.

Definition default_scope : str := lit "tasks:read tasks:write".

(** What the token endpoint answers to one [requests.post]. *)
Inductive json_body :=
| NotJson
| NotADict
| Dict (d : gmap str pyval).

Inductive post_result :=
| TransportError
| Response (status_code : Z) (body : json_body).

(** [response.raise_for_status()] raises on 4xx and 5xx. *)
Definition is_http_error (status_code : Z) : bool :=
  ((400 <=? status_code) && (status_code <? 600))%Z.

(** What a method does to the outside. *)
Inductive effect :=
| HttpPost (url : str) (data : list (str * pyval))
| WriteConfig (path : str) (config : list (str * pyval)) (complete : bool)
| WriteEnv (access refresh : pyval) (complete : bool).

(** The result of a method: the returned value, the client afterwards, and
    what it did. *)
Record result (A : Type) := Result {
  ret : A;
  after : DidaOAuthClient;
  did : list effect
}.
Arguments Result {A} _ _ _.
Arguments ret {A} _.
Arguments after {A} _.
Arguments did {A} _.

(** Lines 215-220: the refresh token [exchange_token] reads from the reply,
    under either spelling of the field. *)
Definition refresh_of (token_data : gmap str pyval) : pyval :=
  let refresh := get token_data (lit "refresh_token") in
  if negb (truth refresh)
  then por (get token_data (lit "refreshToken"))
           (get token_data (lit "refresh_token"))
  else refresh.

(** [exchange_token], lines 187-243; [reply] is what [requests.post] gives
    (or raises). *)
Definition exchange_token (self : DidaOAuthClient) (authorization_code : pyval)
    (reply : post_result) : result bool :=
  let payload :=
    [ (lit "client_id", client_id self);
      (lit "client_secret", client_secret self);
      (lit "code", authorization_code);
      (lit "grant_type", PStr (lit "authorization_code"));
      (lit "redirect_uri", redirect_uri self) ] in
  let post := [HttpPost TOKEN_URL payload] in
  match reply with
  | TransportError => Result false self post
  | Response status_code body =>
      if is_http_error status_code then Result false self post
      else
        match body with
        | NotJson => Result false self post
        | NotADict => Result false self post
        | Dict token_data =>
            let access := get token_data (lit "access_token") in
            let refresh := refresh_of token_data in
            let self' := set_tokens self access refresh in
            if truth access then
              if truth refresh && negb (sliceable_val refresh)
              then Result false self' post
              else Result true self' post
            else Result false self' post
        end
  end.

(** [refresh_access_token], lines 245-280. *)
Definition refresh_access_token (self : DidaOAuthClient) (reply : post_result)
  : result bool :=
  if negb (truth (refresh_token self)) then Result false self []
  else
    let payload :=
      [ (lit "client_id", client_id self);
        (lit "client_secret", client_secret self);
        (lit "refresh_token", refresh_token self);
        (lit "grant_type", PStr (lit "refresh_token")) ] in
    let post := [HttpPost TOKEN_URL payload] in
    match reply with
    | TransportError => Result false self post
    | Response status_code body =>
        if is_http_error status_code then Result false self post
        else
          match body with
          | NotJson => Result false self post
          | NotADict => Result false self post
          | Dict token_data =>
              let access := get token_data (lit "access_token") in
              let new_refresh_token := get token_data (lit "refresh_token") in
              let refresh :=
                if truth new_refresh_token then new_refresh_token
                else refresh_token self in
              Result true (set_tokens self access refresh) post
          end
    end.

(** [save_tokens], lines 282-312; [io_ok] tells whether opening and writing
    the file went through (an exception is caught, line 310). *)
Definition save_tokens (self : DidaOAuthClient) (config_path : str)
    (io_ok : bool) : result bool :=
  if negb (truth (access_token self)) then Result false self []
  else
    let config :=
      [ (lit "client_id", client_id self);
        (lit "client_secret", client_secret self);
        (lit "redirect_uri", redirect_uri self);
        (lit "access_token", access_token self);
        (lit "refresh_token", refresh_token self) ] in
    Result io_ok self [WriteConfig config_path config io_ok].

(** What [load_tokens] finds at [config_path]. *)
Inductive config_file :=
| Missing
| Unreadable
| NoDict
| Config (config : gmap str pyval).

(** [config.get(k, dflt)] *)
Definition get_default (d : gmap str pyval) (k : str) (dflt : pyval) : pyval :=
  default dflt (d !! k).

(** [load_tokens], lines 314-348. *)
Definition load_tokens (self : DidaOAuthClient) (file : config_file)
  : result bool :=
  match file with
  | Missing => Result false self []
  | Unreadable => Result false self []
  | NoDict => Result false self []
  | Config config =>
      let self' :=
        {| client_id := get_default config (lit "client_id") (client_id self);
           client_secret :=
             get_default config (lit "client_secret") (client_secret self);
           redirect_uri :=
             get_default config (lit "redirect_uri") (redirect_uri self);
           access_token := get config (lit "access_token");
           refresh_token := get config (lit "refresh_token") |} in
      Result (truth (access_token self')) self' []
  end.

(** [get_headers], lines 350-363; [None] is the [ValueError]. *)
Definition get_headers (self : DidaOAuthClient) : option (list (str * str)) :=
  if negb (truth (access_token self)) then None
  else Some [ (lit "Authorization", lit "Bearer " ++ to_str (access_token self));
              (lit "Content-Type", lit "application/json") ].

(** [authorize], lines 146-185, from the point where
    [start_callback_server] has returned [authorization_code]. *)
Definition authorize (self : DidaOAuthClient) (authorization_code : option str)
    (reply : post_result) : result bool :=
  match authorization_code with
  | Some c =>
      if truthy c then exchange_token self (PStr c) reply
      else Result false self []
  | None => Result false self []
  end.

(** The flow of [scripts/oauth_authenticate.py], lines 107-124: after a
    successful [authorize] the tokens go to [.env] ([written] tells whether
    [write_env_tokens] returned; an exception of it is not caught), the
    start of the access token is printed ([access_token[:30]], uncaught when
    it raises), and [get_headers] is called for the test request. *)
Definition authenticate (self : DidaOAuthClient) (authorization_code : option str)
    (reply : post_result) (written : bool) : result (option (list (str * str))) :=
  let r := authorize self authorization_code reply in
  if ret r then
    let effects :=
      did r ++ [WriteEnv (access_token (after r)) (refresh_token (after r)) written] in
    if written && sliceable_val (access_token (after r))
    then Result (get_headers (after r)) (after r) effects
    else Result None (after r) effects
  else Result None (after r) (did r).

(** A client just made, and one that holds the access token [old] from a
    successful exchange. *)
Definition fresh : DidaOAuthClient :=
  init ∅ (PStr (lit "id")) (PStr (lit "secret"))
       (PStr (lit "http://localhost:38000/callback")).

Definition holder : DidaOAuthClient :=
  after (exchange_token fresh (PStr (lit "code"))
           (Response 200 (Dict {[ lit "access_token" := PStr (lit "old") ]}))).

(** *** Sessions: any sequence of operations on one client *)

Inductive op :=
| Exchange (authorization_code : pyval) (reply : post_result)
| Refresh (reply : post_result)
| Authorize (authorization_code : option str) (reply : post_result)
| Authenticate (authorization_code : option str) (reply : post_result)
    (written : bool)
| Save (config_path : str) (io_ok : bool)
| Load (file : config_file)
| GetHeaders.

(** An access token leaves the client: as the value of the [Authorization]
    header of the headers handed out, or as the token given to storage. *)
Inductive token_use :=
| InHeaders (authorization : str)
| InConfigFile (token : pyval)
| InEnvFile (token : pyval).

(** The use [u] carries the token [t]: the header value is [Bearer]
    followed by the text of [t]; the stored value is [t]. *)
Definition carries (u : token_use) (t : pyval) : Prop :=
  match u with
  | InHeaders authorization => authorization = lit "Bearer " ++ to_str t
  | InConfigFile t' => t' = t
  | InEnvFile t' => t' = t
  end.

(** The access token a written file holds. *)
Definition uses_of_effect (e : effect) : list token_use :=
  match e with
  | HttpPost _ _ => []
  | WriteConfig _ config _ =>
      match List.find (fun kv => bool_decide (kv.1 = lit "access_token")) config with
      | Some kv => [InConfigFile kv.2]
      | None => []
      end
  | WriteEnv access _ _ => [InEnvFile access]
  end.

(** What the headers handed out carry: the value of their [Authorization]
    entry. *)
Definition uses_of_headers (h : option (list (str * str))) : list token_use :=
  match h with
  | Some headers =>
      match List.find (fun kv => bool_decide (kv.1 = lit "Authorization")) headers with
      | Some kv => [InHeaders kv.2]
      | None => []
      end
  | None => []
  end.

(** One operation: the client afterwards and the token uses it made. *)
Definition step (self : DidaOAuthClient) (o : op)
  : DidaOAuthClient * list token_use :=
  match o with
  | Exchange c reply =>
      let r := exchange_token self c reply in
      (after r, concat (map uses_of_effect (did r)))
  | Refresh reply =>
      let r := refresh_access_token self reply in
      (after r, concat (map uses_of_effect (did r)))
  | Authorize c reply =>
      let r := authorize self c reply in
      (after r, concat (map uses_of_effect (did r)))
  | Authenticate c reply written =>
      let r := authenticate self c reply written in
      (after r, concat (map uses_of_effect (did r)) ++ uses_of_headers (ret r))
  | Save path io_ok =>
      let r := save_tokens self path io_ok in
      (after r, concat (map uses_of_effect (did r)))
  | Load file =>
      let r := load_tokens self file in
      (after r, concat (map uses_of_effect (did r)))
  | GetHeaders => (self, uses_of_headers (get_headers self))
  end.

Fixpoint run (self : DidaOAuthClient) (ops : list op)
  : DidaOAuthClient * list token_use :=
  match ops with
  | [] => (self, [])
  | o :: ops' =>
      let s1 := step self o in
      let s2 := run s1.1 ops' in
      (s2.1, s1.2 ++ s2.2)
  end.

(** The access token of a successful token response: status accepted by
    [raise_for_status], a JSON object, a non-empty [access_token]. *)
Definition issued_by (reply : post_result) : list pyval :=
  match reply with
  | Response status_code (Dict d) =>
      if negb (is_http_error status_code) && truth (get d (lit "access_token"))
      then [get d (lit "access_token")] else []
  | _ => []
  end.

(** The access token that the operation [o] on the client [self] obtained:
    the operation has sent its POST and the reply was a success. *)
Definition issued_at (self : DidaOAuthClient) (o : op) : list pyval :=
  match o with
  | Exchange _ reply => issued_by reply
  | Refresh reply => if truth (refresh_token self) then issued_by reply else []
  | Authorize c reply | Authenticate c reply _ =>
      if truthy_opt c then issued_by reply else []
  | _ => []
  end.

(** The access tokens that the exchanges and refreshes of a session
    brought. *)
Fixpoint issued (self : DidaOAuthClient) (ops : list op) : list pyval :=
  match ops with
  | [] => []
  | o :: ops' => issued_at self o ++ issued (step self o).1 ops'
  end.

(** The access tokens that [load_tokens] read from stored files. *)
Definition loaded (ops : list op) : list pyval :=
  concat (map (fun o =>
    match o with
    | Load (Config config) => [get config (lit "access_token")]
    | _ => []
    end) ops).

End OAuth.

(** ** The [.env] writer ([src/scripts/oauth_authenticate.py], lines 31-56) *)
Module EnvFile.

(** [upsert], lines 38-43. *)
Definition upsert (key : str) (value : pyval) (lines : list str) : list str :=
  let lines :=
    List.filter (fun ln => negb (startswith ln (key ++ lit "="))) lines in
  match value with
  | PNone => lines
  | _ => lines ++ [key ++ lit "=" ++ to_str value]
  end.

(** [content_endswith_newline], lines 53-56. *)
Definition content_endswith_newline (lines : list str) : bool :=
  match list.last lines with
  | None => false
  | Some l => endswith l [10]
  end.

(** The lines [write_env_tokens] starts from, lines 33-36, given the text
    the file decodes to; [None] is a file that does not exist. *)
Definition read_lines (text : option str) : list str :=
  match text with
  | Some content => splitlines (universal_newlines content)
  | None => []
  end.

Definition ACCESS : str := lit "DIDA_ACCESS_TOKEN".
Definition REFRESH : str := lit "DIDA_REFRESH_TOKEN".

(** Lines 33-47: the text [content] that [write_env_tokens] assembles. *)
Definition new_content (text : option str) (access_token refresh_token : pyval)
  : str :=
  let lines := read_lines text in
  let lines := upsert ACCESS access_token lines in
  let lines := upsert REFRESH (por refresh_token (PStr [])) lines in
  join [10] lines ++ (if negb (content_endswith_newline lines) then [10] else []).

(** The file [env_path] as it is on disk: its bytes, [None] when it does
    not exist. *)
Definition file : Type := option bytes.

(** What reading the file in text mode with [encoding="utf-8"] gives:
    [None] is [UnicodeDecodeError]; [Some None] is the file that does not
    exist. *)
Definition file_text (f : file) : option (option str) :=
  match f with
  | Some b => Some <$> utf8_decode_strict (map Byte.to_N b)
  | None => Some None
  end.

Inductive exn := UnicodeDecodeError | UnicodeEncodeError.

(** What a call leaves: the exception it raised, if any, and the file
    afterwards. *)
Record written := {
  raised : option exn;
  file_after : file
}.

(** The call returned. *)
Definition returned (w : written) : bool :=
  match raised w with
  | None => true
  | Some _ => false
  end.

(** Lines 48-49: [open(env_path, "w", encoding="utf-8")] empties the file,
    and [f.write(content)] encodes [content] before any byte is written. *)
Definition store (content : str) : written :=
  match utf8_encode content with
  | Some b => {| raised := None; file_after := Some b |}
  | None => {| raised := Some UnicodeEncodeError; file_after := Some [] |}
  end.

(** [write_env_tokens], lines 31-50. *)
Definition write_env_tokens (f : file) (access_token refresh_token : pyval)
  : written :=
  match file_text f with
  | Some text => store (new_content text access_token refresh_token)
  | None => {| raised := Some UnicodeDecodeError; file_after := f |}
  end.

(** A string argument, and an optional one. *)
Definition opt (o : option str) : pyval :=
  match o with Some s => PStr s | None => PNone end.

(** A line that belongs to neither key. *)
Definition unrelated (ln : str) : bool :=
  negb (startswith ln (ACCESS ++ lit "=")) && negb (startswith ln (REFRESH ++ lit "=")).

End EnvFile.

(** ** The FastMCP server set-up ([src/mcp_server.py]) *)
Module McpServer.

(** Line 30: the secret this module expects. *)
Definition EXPECTED_API_KEY (environ : gmap str str) : str :=
  default (lit "123") (environ !! lit "MCP_API_KEY").

#[global] Instance pyval_eq_dec : EqDecision pyval.
Proof. solve_decision. Defined.

(** The [context] dict handed to [authenticate_request]: its ["headers"]
    entry, a dict, when it has one. *)
Record context := {
  ctx_headers : option (gmap str pyval)
}.

(** The session data returned on success, lines 62-65. *)
Definition session : list (str * str) :=
  [ (lit "authenticated_user_id", lit "system");
    (lit "auth_method", lit "api_key") ].

(** [authenticate_request], lines 32-65; [None] is the [AuthError]. *)
Definition authenticate_request (environ : gmap str str) (ctx : context)
  : option (list (str * str)) :=
  let request_headers := default ∅ (ctx_headers ctx) in
  let api_key := get request_headers (lit "x-api-key") in
  if bool_decide (api_key ≠ PStr (EXPECTED_API_KEY environ)) then None
  else Some session.

(** What the first [FastMCP(..., authenticate=authenticate_request)] of
    [create_server] does, lines 88-107: it is accepted, it raises a
    [TypeError] that names [authenticate], or another [TypeError]. *)
Inductive first_attempt := Accepted | RejectsAuthenticate | OtherTypeError.

(** How the server built by [create_server] checks the key: by the
    callback, or by the ASGI middleware around [server.app]. *)
Inductive auth_layer :=
| ByCallback
| ByMiddleware (gateway : Gateway.ApiKeyAuthMiddleware).

(** The authentication part of [create_server], lines 85-107; [None] is the
    [TypeError] raised again. *)
Definition create_server_auth (environ : gmap str str) (first : first_attempt)
  : option auth_layer :=
  match first with
  | Accepted => Some ByCallback
  | RejectsAuthenticate =>
      Some (ByMiddleware
              (Gateway.init environ (lit "x-api-key")
                 (Some (EXPECTED_API_KEY environ)) (lit "/mcp") (Some (lit "/sse"))))
  | OtherTypeError => None
  end.

End McpServer.

(** ** The flows that drive the client ([src/utils/oauth_auth.py], lines
    146-185 and 366-420; [src/scripts/oauth_authenticate.py], lines 59-142;
    [src/http_server.py], lines 80-88) *)
Module Flows.
Import OAuth.

(** [authorize], lines 146-185, with the listener: [incoming] are the
    requests that reach the callback server while the caller waits. *)
Definition authorize_listening (urlparse_query : str -> option str)
    (self : DidaOAuthClient) (incoming : list Callback.request)
    (reply : post_result) : result bool :=
  authorize self (Callback.start_callback_server urlparse_query incoming) reply.



(** [test_oauth_flow], lines 366-420, up to the request it sends: the
    result is the headers of that request, [None] when the flow returns
    before it or the [try] block fails before it. [file] is what
    [oauth_config.json] holds. *)
Definition test_oauth_flow (environ : gmap str str) (client_id client_secret : pyval)
    (file : config_file) (authorization_code : option str) (reply : post_result)
    (io_ok : bool) : result (option (list (str * str))) :=
  let oauth_client :=
    init environ client_id client_secret (PStr (lit "http://localhost:8000/callback")) in
  let api_test (c : DidaOAuthClient) (did : list effect) :=
    match get_headers c with
    | Some headers =>
        if sliceable_val (access_token c) then Result (Some headers) c did
        else Result None c did
    | None => Result None c did
    end in
  let l := load_tokens oauth_client file in
  if ret l then api_test (after l) (did l)
  else
    let a := authorize (after l) authorization_code reply in
    if ret a then
      let s := save_tokens (after a) (lit "oauth_config.json") io_ok in
      api_test (after s) (did l ++ did a ++ did s)
    else Result None (after a) (did l ++ did a).

(** How [main] of [scripts/oauth_authenticate.py] ends. *)
Inductive ending :=
| Exit (status : Z)
| Returns
| Uncaught.

(** [str(n)] for an [int]. *)
Definition str_of_int (n : Z) : str := lit (NilZero.string_of_int (Z.to_int n)).

(** The exit status of the process: an uncaught exception gives status 1,
    as [sys.exit(1)] does. *)
Definition exit_status (e : ending) : Z :=
  match e with
  | Exit status => status
  | Returns => 0
  | Uncaught => 1
  end.

(** What [main] leaves behind: how it ended, the effects, and the file
    [.env] afterwards. *)
Record run := {
  ended : ending;
  effects : list effect;
  dotenv : EnvFile.file
}.

(** [main], lines 59-142. [environ] is [os.environ] once [load_dotenv] has
    run, [port] is [args.port], [dotenv_file] the file [.env] of the working
    directory before. An exception of [write_env_tokens] is not caught, nor
    is the one of [access_token[:30]]. *)
Definition main (environ : gmap str str) (port : Z) (dotenv_file : EnvFile.file)
    (authorization_code : option str) (reply : post_result) : run :=
  let client_id := env_get environ (lit "DIDA_CLIENT_ID") in
  let client_secret := env_get environ (lit "DIDA_CLIENT_SECRET") in
  let redirect_uri :=
    match environ !! lit "DIDA_REDIRECT_URI" with
    | Some v => v
    | None => lit "http://localhost:" ++ str_of_int port ++ lit "/callback"
    end in
  if negb (truth client_id) || negb (truth client_secret) then
    {| ended := Exit 1; effects := []; dotenv := dotenv_file |}
  else
    let oauth_client := init environ client_id client_secret (PStr redirect_uri) in
    let a := authorize oauth_client authorization_code reply in
    if ret a then
      let access := access_token (after a) in
      let refresh := refresh_token (after a) in
      let w := EnvFile.write_env_tokens dotenv_file access refresh in
      {| ended :=
           if EnvFile.returned w && sliceable_val access then Returns else Uncaught;
         effects := did a ++ [WriteEnv access refresh (EnvFile.returned w)];
         dotenv := EnvFile.file_after w |}
    else {| ended := Exit 1; effects := did a; dotenv := dotenv_file |}.

(** The answer of [GET /debug/api-key], [src/http_server.py] lines 80-88. *)
Record debug_info := {
  api_key_set : bool;
  api_key_length : nat;
  api_key_preview : option str
}.

Definition debug_api_key (API_KEY : option str) : debug_info :=
  let k := default [] API_KEY in
  {| api_key_set := truthy_opt API_KEY;
     api_key_length := if truthy_opt API_KEY then length k else 0%nat;
     api_key_preview :=
       if truthy_opt API_KEY && bool_decide (10 < length k)%nat
       then Some (take 10 k ++ lit "...")
       else if truthy_opt API_KEY then API_KEY else None |}.

End Flows.

(** ** The JSON-RPC endpoint ([src/http_server.py], lines 116-565) *)
Module Rpc.

(** A decoded JSON value as the handler observes it: [None], a string, an
    object, or a value of another type (a number, a boolean, a list), of
    which the handler uses the name of the type and the text [str()] gives.
    An object carries its [str()] text as well. *)
#[local] Unset Elimination Schemes.
Inductive json :=
| JNull
| JStr (s : str)
| JObject (text : str) (d : gmap str json)
| JOther (type_name text : str).
#[local] Set Elimination Schemes.

(** [type(v).__name__] *)
Definition type_name_of (v : json) : str :=
  match v with
  | JNull => lit "NoneType"
  | JStr _ => lit "str"
  | JObject _ _ => lit "dict"
  | JOther type_name _ => type_name
  end.

(** [f"{v}"] *)
Definition text_of (v : json) : str :=
  match v with
  | JNull => lit "None"
  | JStr s => s
  | JObject text _ => text
  | JOther _ text => text
  end.

(** [d.get(k)] and [d.get(k, dflt)] *)
Definition jget (d : gmap str json) (k : str) : json := default JNull (d !! k).

Definition jget_default (d : gmap str json) (k : str) (dflt : json) : json :=
  default dflt (d !! k).

(** [v == "..."]: only a string equals a string. *)
Definition is_str (v : json) (s : str) : bool :=
  match v with
  | JStr s' => bool_decide (s' = s)
  | _ => false
  end.

(** The text of the [AttributeError] that [v.get] raises when [v] is not a
    dict. *)
Definition no_get (v : json) : str :=
  lit "'" ++ type_name_of v ++ lit "' object has no attribute 'get'".

(** [{}] *)
Definition empty_dict : json := JObject (lit "{}") ∅.

(** *** The advertised tools, lines 117-344 *)

(** One entry of [properties] of an [inputSchema]: the name, the [type] and
    the [default] when it has one. *)
Record schema_property := {
  prop_name : str;
  prop_type : str;
  prop_default : option json
}.

Definition property (name type : string) (dflt : option json) : schema_property :=
  {| prop_name := lit name; prop_type := lit type; prop_default := dflt |}.

(** A [Tool]: its name, and the [properties] and [required] of its
    [inputSchema]. *)
Record tool := {
  tool_name : str;
  properties : list schema_property;
  required : list str
}.

Definition get_tool_definitions : list tool :=
  [
    {| tool_name := lit "get_tasks";
       properties :=
         [ property "mode" "string" (Some (JStr (lit "all")));
           property "keyword" "string" None;
           property "priority" "integer" None;
           property "project_name" "string" None;
           property "completed" "boolean" None ];
       required := [] |};
    {| tool_name := lit "create_task";
       properties :=
         [ property "title" "string" None;
           property "content" "string" None;
           property "priority" "integer" None;
           property "project_name" "string" None;
           property "tag_names" "array" None;
           property "start_date" "string" None;
           property "due_date" "string" None;
           property "is_all_day" "boolean" None;
           property "reminder" "string" None ];
       required := [] |};
    {| tool_name := lit "update_task";
       properties :=
         [ property "task_id_or_title" "string" None;
           property "title" "string" None;
           property "content" "string" None;
           property "priority" "integer" None;
           property "project_name" "string" None;
           property "due_date" "string" None ];
       required := [lit "task_id_or_title"] |};
    {| tool_name := lit "delete_task";
       properties :=
         [ property "task_id_or_title" "string" None ];
       required := [lit "task_id_or_title"] |};
    {| tool_name := lit "complete_task";
       properties :=
         [ property "task_id_or_title" "string" None ];
       required := [lit "task_id_or_title"] |};
    {| tool_name := lit "get_projects";
       properties :=
         [];
       required := [] |};
    {| tool_name := lit "create_project";
       properties :=
         [ property "name" "string" None;
           property "color" "string" None ];
       required := [lit "name"] |};
    {| tool_name := lit "update_project";
       properties :=
         [ property "project_id_or_name" "string" None;
           property "name" "string" None;
           property "color" "string" None ];
       required := [lit "project_id_or_name"] |};
    {| tool_name := lit "delete_project";
       properties :=
         [ property "project_id_or_name" "string" None ];
       required := [lit "project_id_or_name"] |};
    {| tool_name := lit "get_tags";
       properties :=
         [];
       required := [] |};
    {| tool_name := lit "create_goal";
       properties :=
         [ property "title" "string" None;
           property "type" "string" None;
           property "keywords" "string" None;
           property "description" "string" None;
           property "due_date" "string" None;
           property "start_date" "string" None;
           property "frequency" "string" None ];
       required := [lit "title"; lit "type"; lit "keywords"] |};
    {| tool_name := lit "get_goals";
       properties :=
         [ property "type" "string" None;
           property "status" "string" None;
           property "keywords" "string" None ];
       required := [] |};
    {| tool_name := lit "update_goal";
       properties :=
         [ property "goal_id" "string" None;
           property "title" "string" None;
           property "keywords" "string" None;
           property "description" "string" None ];
       required := [lit "goal_id"] |};
    {| tool_name := lit "delete_goal";
       properties :=
         [ property "goal_id" "string" None ];
       required := [lit "goal_id"] |};
    {| tool_name := lit "match_task_with_goals";
       properties :=
         [ property "task_title" "string" None;
           property "task_content" "string" None;
           property "min_score" "number" (Some (JOther (lit "float") (lit "0.3"))) ];
       required := [lit "task_title"] |};
    {| tool_name := lit "get_goal_statistics";
       properties :=
         [ property "force_refresh" "boolean" (Some (JOther (lit "bool") (lit "False"))) ];
       required := [] |};
    {| tool_name := lit "get_task_statistics";
       properties :=
         [ property "days" "integer" (Some (JOther (lit "int") (lit "30")));
           property "force_refresh" "boolean" (Some (JOther (lit "bool") (lit "False"))) ];
       required := [] |};
    {| tool_name := lit "generate_weekly_summary";
       properties :=
         [ property "force_refresh" "boolean" (Some (JOther (lit "bool") (lit "False"))) ];
       required := [] |}
  ].

(** *** The dispatcher, lines 346-467 *)

(** The functions of the logic layer that [call_tool] calls. *)
Inductive logic_fn :=
| get_tasks_logic | create_task_logic | update_task_logic | delete_task_logic
| complete_task_logic
| get_projects_logic | create_project_logic | update_project_logic
| delete_project_logic
| create_goal_logic | get_goals_logic | update_goal_logic | delete_goal_logic
| match_task_with_goals_logic
| get_goal_statistics | get_task_statistics | generate_weekly_summary.

(** One argument of such a call: [kw=arguments.get(key, dflt)], or the
    positional [arguments.get(key)]. *)
Record parameter := {
  kw : option str;
  key : str;
  dflt : json
}.

Definition keyword (kw key : string) : parameter :=
  {| kw := Some (lit kw); key := lit key; dflt := JNull |}.

Definition keyword_default (kw key : string) (dflt : json) : parameter :=
  {| kw := Some (lit kw); key := lit key; dflt := dflt |}.

Definition positional (key : string) : parameter :=
  {| kw := None; key := lit key; dflt := JNull |}.

(** What a branch of [call_tool] comes to: a call of the logic layer with
    its arguments, the inline code of [get_tags], or an exception raised
    before any call, with its text. *)
Inductive dispatched :=
| Invoke (fn : logic_fn) (args : list (option str * json))
| InlineTags
| Fails (message : str).

(** The arguments of a call are evaluated first: the first
    [arguments.get] raises when [arguments] is not a dict. *)
Definition invoke (fn : logic_fn) (arguments : json) (params : list parameter)
  : dispatched :=
  match params with
  | [] => Invoke fn []
  | _ :: _ =>
      match arguments with
      | JObject _ d =>
          Invoke fn (map (fun p => (kw p, jget_default d (key p) (dflt p))) params)
      | _ => Fails (no_get arguments)
      end
  end.

(** The [if]/[elif] chain of [call_tool], lines 349-461. *)
Definition dispatch (name arguments : json) : dispatched :=
  if is_str name (lit "get_tasks") then
    invoke get_tasks_logic arguments
      [ keyword_default "mode" "mode" (JStr (lit "all"));
        keyword "keyword" "keyword";
        keyword "priority" "priority";
        keyword "project_name" "project_name";
        keyword "completed" "completed" ]
  else if is_str name (lit "create_task") then
    invoke create_task_logic arguments
      [ keyword "title" "title";
        keyword "content" "content";
        keyword "priority" "priority";
        keyword "project_name" "project_name";
        keyword "tag_names" "tag_names";
        keyword "start_date" "start_date";
        keyword "due_date" "due_date";
        keyword "is_all_day" "is_all_day";
        keyword "reminder" "reminder" ]
  else if is_str name (lit "update_task") then
    invoke update_task_logic arguments
      [ keyword "task_id_or_title" "task_id_or_title";
        keyword "title" "title";
        keyword "content" "content";
        keyword "priority" "priority";
        keyword "project_name" "project_name";
        keyword "due_date" "due_date" ]
  else if is_str name (lit "delete_task") then
    invoke delete_task_logic arguments
      [ positional "task_id_or_title" ]
  else if is_str name (lit "complete_task") then
    invoke complete_task_logic arguments
      [ positional "task_id_or_title" ]
  else if is_str name (lit "get_projects") then
    invoke get_projects_logic arguments
      []
  else if is_str name (lit "create_project") then
    invoke create_project_logic arguments
      [ keyword "name" "name";
        keyword "color" "color" ]
  else if is_str name (lit "update_project") then
    invoke update_project_logic arguments
      [ keyword "project_id_or_name" "project_id_or_name";
        keyword "name" "name";
        keyword "color" "color" ]
  else if is_str name (lit "delete_project") then
    invoke delete_project_logic arguments
      [ positional "project_id_or_name" ]
  else if is_str name (lit "get_tags") then InlineTags
  else if is_str name (lit "create_goal") then
    invoke create_goal_logic arguments
      [ keyword "title" "title";
        keyword "type" "type";
        keyword "keywords" "keywords";
        keyword "description" "description";
        keyword "due_date" "due_date";
        keyword "start_date" "start_date";
        keyword "frequency" "frequency" ]
  else if is_str name (lit "get_goals") then
    invoke get_goals_logic arguments
      [ keyword "type" "type";
        keyword "status" "status";
        keyword "keywords" "keywords" ]
  else if is_str name (lit "update_goal") then
    invoke update_goal_logic arguments
      [ keyword "goal_id" "goal_id";
        keyword "title" "title";
        keyword "keywords" "keywords";
        keyword "description" "description" ]
  else if is_str name (lit "delete_goal") then
    invoke delete_goal_logic arguments
      [ positional "goal_id" ]
  else if is_str name (lit "match_task_with_goals") then
    invoke match_task_with_goals_logic arguments
      [ keyword "task_title" "task_title";
        keyword "task_content" "task_content";
        keyword_default "min_score" "min_score" (JOther (lit "float") (lit "0.3")) ]
  else if is_str name (lit "get_goal_statistics") then
    invoke get_goal_statistics arguments
      [ keyword_default "force_refresh" "force_refresh" (JOther (lit "bool") (lit "False")) ]
  else if is_str name (lit "get_task_statistics") then
    invoke get_task_statistics arguments
      [ keyword_default "days" "days" (JOther (lit "int") (lit "30"));
        keyword_default "force_refresh" "force_refresh" (JOther (lit "bool") (lit "False")) ]
  else if is_str name (lit "generate_weekly_summary") then
    invoke generate_weekly_summary arguments
      [ keyword_default "force_refresh" "force_refresh" (JOther (lit "bool") (lit "False")) ]
  else Fails (lit "Unknown tool: " ++ text_of name).

(** [get_tags], lines 394-404. [list_tasks] is what [adapter.list_tasks()]
    gives ([None]: it raised, or gave [None]), each task by its [tags]
    ([None]: no such entry, or [null]). The result lists the tag names: each
    stands for the dict with that [name] and [label]. *)
Definition add_tag (agg : list str) (tag_name : str) : list str :=
  if bool_decide (tag_name ∈ agg) then agg else agg ++ [tag_name].

Definition get_tags (list_tasks : option (list (option (list str)))) : list str :=
  fold_left (fun agg t => fold_left add_tag (default [] t) agg)
            (default [] list_tasks) [].

(** What a called function of the logic layer does: it returns a value that
    [json.dumps] renders as [dumped], or one on which [json.dumps] raises,
    or it raises; [message] is [str(e)]. *)
Inductive logic_result :=
| Value (dumped : str)
| Unserializable (message : str)
| Raised (message : str).

(** What [call_tool] does: it returns a value, or raises [ValueError]. *)
Inductive call_outcome :=
| Gives (dumped : str)
| GivesTags (names : list str)
| GivesUnserializable (message : str)
| RaisesValueError (message : str).

(** The [result] member of an answer. *)
Inductive rpc_result :=
| ToolsList (tools : list tool)
| ToolText (text : str)
| ToolTags (names : list str)
| ServerInfo.

(** What [mcp_endpoint] does after the key check: it returns a JSON-RPC
    result or error, the dict [{"error": "Invalid JSON-RPC request"}], or
    an exception leaves the handler. *)
Inductive response :=
| RpcResult (id : json) (result : rpc_result)
| RpcError (id : json) (code : Z) (message : str)
| InvalidRequest
| Uncaught (message : str).

(** What [await request.json()] gives: it raises, or returns the decoded
    value. *)
Inductive request_body :=
| BadJson (message : str)
| Json (v : json).

Section Server.

(** The logic layer at this request, and the task list of the adapter. *)
Variable logic : logic_fn -> list (option str * json) -> logic_result.
Variable list_tasks : option (list (option (list str))).

(** Line 464: every exception of the body becomes a [ValueError]. *)
Definition wrap (name : json) (message : str) : str :=
  lit "Error processing tool call '" ++ text_of name ++ lit "': " ++ message.

(** [call_tool], lines 346-464. *)
Definition call_tool (name arguments : json) : call_outcome :=
  match dispatch name arguments with
  | Invoke fn args =>
      match logic fn args with
      | Value dumped => Gives dumped
      | Unserializable message => GivesUnserializable message
      | Raised message => RaisesValueError (wrap name message)
      end
  | InlineTags => GivesTags (get_tags list_tasks)
  | Fails message => RaisesValueError (wrap name message)
  end.

(** [mcp_endpoint], lines 495-565: the part after the key check. *)
Definition handle (body : request_body) : response :=
  match body with
  | BadJson message => RpcError JNull (-32603) message
  | Json (JObject _ body) =>
      if is_str (jget body (lit "jsonrpc")) (lit "2.0") then
        let method := jget body (lit "method") in
        let params := jget_default body (lit "params") empty_dict in
        if is_str method (lit "tools/list") then
          RpcResult (jget body (lit "id")) (ToolsList get_tool_definitions)
        else if is_str method (lit "tools/call") then
          match params with
          | JObject _ params =>
              let tool_name := jget params (lit "name") in
              let arguments := jget_default params (lit "arguments") empty_dict in
              match call_tool tool_name arguments with
              | Gives dumped => RpcResult (jget body (lit "id")) (ToolText dumped)
              | GivesTags names => RpcResult (jget body (lit "id")) (ToolTags names)
              | GivesUnserializable message =>
                  RpcError (jget body (lit "id")) (-32603) message
              | RaisesValueError message =>
                  RpcError (jget body (lit "id")) (-32603) message
              end
          | _ => RpcError (jget body (lit "id")) (-32603) (no_get params)
          end
        else if is_str method (lit "initialize") then
          RpcResult (jget body (lit "id")) ServerInfo
        else
          RpcError (jget body (lit "id")) (-32601)
                   (lit "Method not found: " ++ text_of method)
      else InvalidRequest
  | Json v => Uncaught (no_get v)
  end.

End Server.

End Rpc.

(** * Facts *)

(** ** Facts about the Python built-ins *)
Module PyFacts.

Lemma startswith_app (p r : str) : startswith (p ++ r) p = true.
Proof.
  induction p as [|a p IH]; simpl; [reflexivity|].
  rewrite N.eqb_refl. exact IH.
Qed.

Lemma startswith_inv (s p : str) :
  startswith s p = true -> exists r, s = p ++ r.
Proof.
  revert s. induction p as [|a p IH]; intros s H.
  - exists s. reflexivity.
  - destruct s as [|b s]; simpl in H; [discriminate|].
    apply andb_prop in H as [Hab Hs].
    apply N.eqb_eq in Hab. subst b.
    destruct (IH s Hs) as [r ->]. exists r. reflexivity.
Qed.

Lemma startswith_prefix (s p : str) :
  startswith s p = true <-> p `prefix_of` s.
Proof.
  split.
  - intros H. destruct (startswith_inv s p H) as [r ->]. by exists r.
  - intros [r ->]. apply startswith_app.
Qed.

Lemma replace_first_prefix (old new r : str) :
  replace_first old new (old ++ r) = new ++ r.
Proof.
  destruct (old ++ r) as [|c s] eqn:E; simpl;
    rewrite <- E, startswith_app, drop_app_length; reflexivity.
Qed.

Lemma contains_prefix {A} (sub post : list A) : contains (sub ++ post) sub.
Proof. exists [], post. reflexivity. Qed.

Lemma contains_tail {A} (c : A) (s sub : list A) :
  contains s sub -> contains (c :: s) sub.
Proof. intros (pre & post & ->). exists (c :: pre), post. reflexivity. Qed.

Lemma startswith_contains (s p : str) : startswith s p = true -> contains s p.
Proof.
  intros H. destruct (startswith_inv s p H) as [r ->]. apply contains_prefix.
Qed.

(** A text without [old] is left alone by [replace]. *)
Lemma replace_from_absent (old new s : str) :
  ~ contains s old -> replace_from old new O s = s.
Proof.
  induction s as [|c s IH]; intros H; simpl; [reflexivity|].
  destruct (startswith (c :: s) old) eqn:E.
  - destruct H. apply startswith_contains. exact E.
  - f_equal. apply IH. intros Hc. apply H. apply contains_tail. exact Hc.
Qed.

(** The characters still to be dropped are dropped. *)
Lemma replace_from_skip (old new p s : str) :
  replace_from old new (length p) (p ++ s) = replace_from old new O s.
Proof.
  induction p as [|c p IH]; simpl; [reflexivity|].
  exact IH.
Qed.

(** Removing [old] from [old ++ s] gives [s] when [s] is free of it. *)
Lemma replace_all_prefix (old s : str) :
  truthy old = true -> ~ contains s old ->
  replace_all old [] (old ++ s) = s.
Proof.
  intros Ho Hs. destruct old as [|c old]; [discriminate|].
  unfold replace_all. cbn [app replace_from].
  change (c :: old ++ s) with ((c :: old) ++ s).
  rewrite startswith_app. cbn [length pred app].
  rewrite replace_from_skip. apply replace_from_absent. exact Hs.
Qed.

(** *** Lines *)

Lemma one_line_app (a b : str) :
  one_line (a ++ b) = one_line a && one_line b.
Proof. apply forallb_app. Qed.

Lemma splitlines_line (l rest : str) :
  one_line l = true -> splitlines (l ++ 10 :: rest) = l :: splitlines rest.
Proof.
  induction l as [|c l IH]; intros H.
  - destruct rest; reflexivity.
  - simpl in H. apply andb_prop in H as [Hc Hl].
    apply negb_true_iff in Hc.
    cbn [app splitlines]. rewrite Hc, (IH Hl). reflexivity.
Qed.

(** Lines without boundaries, joined by LF and closed by one, split back
    into themselves. *)
Lemma splitlines_join (L : list str) :
  L <> [] -> Forall (fun l => one_line l = true) L ->
  splitlines (join [10] L ++ [10]) = L.
Proof.
  induction L as [|l L IH]; intros Hne HL; [congruence|].
  inversion HL as [|? ? Hl HL']; subst.
  destruct L as [|l2 L].
  - simpl. rewrite splitlines_line by exact Hl. reflexivity.
  - change (join [10] (l :: l2 :: L)) with (l ++ [10] ++ join [10] (l2 :: L)).
    rewrite <- !app_assoc. cbn [app].
    rewrite splitlines_line by exact Hl.
    f_equal. apply IH; [discriminate | exact HL'].
Qed.

(** What [splitlines] returns are lines. *)
Lemma splitlines_one_line (s : str) :
  Forall (fun l => one_line l = true) (splitlines s).
Proof.
  assert (H : forall n (s : str), (length s <= n)%nat ->
            Forall (fun l => one_line l = true) (splitlines s)).
  { clear s. induction n as [|n IH]; intros s Hn.
    - destruct s; [constructor | simpl in Hn; lia].
    - destruct s as [|c s]; [constructor|].
      simpl in Hn. cbn [splitlines].
      destruct (is_linebreak c) eqn:Hc.
      + destruct s as [|d s].
        * constructor; [reflexivity | constructor].
        * destruct ((c =? 13) && (d =? 10)).
          -- constructor; [reflexivity|]. apply IH. simpl in Hn. lia.
          -- constructor; [reflexivity|]. apply IH. simpl in *. lia.
      + assert (Hs : Forall (fun l => one_line l = true) (splitlines s))
          by (apply IH; lia).
        destruct (splitlines s) as [|l ls].
        * constructor; [simpl; rewrite Hc; reflexivity | constructor].
        * inversion Hs; subst. constructor; [|assumption].
          simpl. rewrite Hc. simpl. assumption. }
  apply (H (length s)). lia.
Qed.

(** Text without CR is read as it is. *)
Lemma universal_newlines_one_line (s : str) :
  forallb (fun c => negb (c =? 13)) s = true -> universal_newlines s = s.
Proof.
  induction s as [|c s IH]; intros H; [reflexivity|].
  simpl in H. apply andb_prop in H as [Hc Hs].
  apply negb_true_iff in Hc. cbn [universal_newlines].
  rewrite Hc, (IH Hs). reflexivity.
Qed.

Lemma one_line_no_cr (s : str) :
  one_line s = true -> forallb (fun c => negb (c =? 13)) s = true.
Proof.
  unfold one_line. rewrite !forallb_forall. intros H c Hc.
  specialize (H c Hc). apply negb_true_iff in H. apply negb_true_iff.
  destruct (c =? 13) eqn:E; [|reflexivity].
  apply N.eqb_eq in E. subst c. discriminate H.
Qed.

Lemma no_cr_join (L : list str) :
  Forall (fun l => one_line l = true) L ->
  forallb (fun c => negb (c =? 13)) (join [10] L ++ [10]) = true.
Proof.
  induction L as [|l L IH]; intros HL; [reflexivity|].
  inversion HL as [|? ? Hl HL']; subst.
  destruct L as [|l2 L].
  - simpl. rewrite forallb_app, (one_line_no_cr l Hl). reflexivity.
  - change (join [10] (l :: l2 :: L)) with (l ++ [10] ++ join [10] (l2 :: L)).
    rewrite <- !app_assoc, forallb_app, (one_line_no_cr l Hl).
    cbn [app forallb andb]. apply IH. exact HL'.
Qed.

(** A line does not end in LF. *)
Lemma endswith_newline_line (pre l : str) :
  one_line l = true -> l <> [] -> endswith (pre ++ l) [10] = false.
Proof.
  intros Hl Hne. unfold endswith. rewrite rev_app_distr.
  change (rev [10]) with [10].
  destruct (rev l) as [|b t] eqn:E.
  - apply (f_equal (@rev N)) in E. rewrite rev_involutive in E. simpl in E.
    congruence.
  - assert (Hb : In b l) by (apply in_rev; rewrite E; left; reflexivity).
    unfold one_line in Hl. rewrite forallb_forall in Hl.
    specialize (Hl b Hb). apply negb_true_iff in Hl.
    cbn [app startswith]. destruct (10 =? b) eqn:E10; [|reflexivity].
    apply N.eqb_eq in E10. subst b. discriminate Hl.
Qed.

Lemma join_last (sep : str) (L : list str) (x : str) :
  exists pre, join sep (L ++ [x]) = pre ++ x.
Proof.
  induction L as [|l L [pre IH]].
  - exists []. reflexivity.
  - exists (l ++ sep ++ pre).
    change (join sep ((l :: L) ++ [x])) with (join sep (l :: (L ++ [x]))).
    destruct (L ++ [x]) as [|y ys] eqn:E.
    + destruct L; discriminate E.
    + change (join sep (l :: y :: ys)) with (l ++ sep ++ join sep (y :: ys)).
      rewrite IH, <- !app_assoc. reflexivity.
Qed.

(** *** Filters *)

Lemma filter_all {A} (f : A -> bool) (l : list A) :
  forallb f l = true -> List.filter f l = l.
Proof.
  induction l as [|x l IH]; simpl; [reflexivity|].
  intros H. apply andb_prop in H as [Hx Hl]. rewrite Hx, (IH Hl). reflexivity.
Qed.

Lemma forallb_filter {A} (f : A -> bool) (l : list A) :
  forallb f (List.filter f l) = true.
Proof.
  induction l as [|x l IH]; simpl; [reflexivity|].
  destruct (f x) eqn:E; simpl; rewrite ?E; exact IH.
Qed.

Lemma forallb_filter_other {A} (f g : A -> bool) (l : list A) :
  forallb f l = true -> forallb f (List.filter g l) = true.
Proof.
  induction l as [|x l IH]; simpl; [reflexivity|].
  intros H. apply andb_prop in H as [Hx Hl].
  destruct (g x); simpl; rewrite ?Hx; auto.
Qed.

Lemma filter_none {A} (f g : A -> bool) (l : list A) :
  forallb g l = true -> (forall x, g x = true -> f x = false) ->
  List.filter f l = [].
Proof.
  intros Hg H. induction l as [|x l IH]; simpl; [reflexivity|].
  simpl in Hg. apply andb_prop in Hg as [Hx Hl].
  rewrite (H x Hx). apply IH. exact Hl.
Qed.

Lemma filter_and {A} (f g : A -> bool) (l : list A) :
  List.filter (fun x => f x && g x) l = List.filter g (List.filter f l).
Proof.
  induction l as [|x l IH]; simpl; [reflexivity|].
  destruct (f x); simpl; [destruct (g x)|]; rewrite IH; reflexivity.
Qed.

(** *** Splitting and decoding *)

Lemma has_char_app (c : N) (a b : str) :
  has_char c (a ++ b) = has_char c a || has_char c b.
Proof. apply existsb_app. Qed.

Lemma has_char_cons (c d : N) (s : str) :
  has_char c (d :: s) = (c =? d) || has_char c s.
Proof. reflexivity. Qed.

Lemma split_piece (sep : N) (p rest : str) :
  has_char sep p = false ->
  split sep (p ++ sep :: rest) = p :: split sep rest.
Proof.
  induction p as [|c p IH]; intros H.
  - cbn [app split]. rewrite N.eqb_refl. reflexivity.
  - rewrite has_char_cons in H. apply orb_false_elim in H as [Hc Hp].
    cbn [app split]. rewrite N.eqb_sym, Hc, (IH Hp). reflexivity.
Qed.

Lemma split_whole (sep : N) (p : str) :
  has_char sep p = false -> split sep p = [p].
Proof.
  induction p as [|c p IH]; intros H; [reflexivity|].
  rewrite has_char_cons in H. apply orb_false_elim in H as [Hc Hp].
  cbn [split]. rewrite N.eqb_sym, Hc, (IH Hp). reflexivity.
Qed.

(** Pieces free of the separator, joined by it, split back. *)
Lemma split_join (sep : N) (parts : list str) :
  parts <> [] -> forallb (fun p => negb (has_char sep p)) parts = true ->
  split sep (join [sep] parts) = parts.
Proof.
  induction parts as [|p parts IH]; intros Hne H; [congruence|].
  cbn [forallb] in H. apply andb_prop in H as [Hp Hps].
  apply negb_true_iff in Hp.
  destruct parts as [|q parts].
  - apply split_whole. exact Hp.
  - change (join [sep] (p :: q :: parts)) with (p ++ sep :: join [sep] (q :: parts)).
    rewrite split_piece by exact Hp. f_equal. apply IH; [discriminate | exact Hps].
Qed.

Lemma split_once_found (sep : N) (a b : str) :
  has_char sep a = false -> split_once sep (a ++ sep :: b) = Some (a, b).
Proof.
  induction a as [|c a IH]; intros H.
  - cbn [app split_once]. rewrite N.eqb_refl. reflexivity.
  - rewrite has_char_cons in H. apply orb_false_elim in H as [Hc Ha].
    cbn [app split_once]. rewrite N.eqb_sym, Hc, (IH Ha). reflexivity.
Qed.

Lemma split_once_absent (sep : N) (s : str) :
  has_char sep s = false -> split_once sep s = None.
Proof.
  induction s as [|c s IH]; intros H; [reflexivity|].
  rewrite has_char_cons in H. apply orb_false_elim in H as [Hc Hs].
  cbn [split_once]. rewrite N.eqb_sym, Hc, (IH Hs). reflexivity.
Qed.

Lemma unquote_plain (s : str) : has_char 37 s = false -> unquote s = s.
Proof. intros H. unfold unquote. rewrite H. reflexivity. Qed.

Lemma plus_to_space_plain (s : str) :
  has_char 43 s = false -> plus_to_space s = s.
Proof.
  induction s as [|c s IH]; intros H; [reflexivity|].
  rewrite has_char_cons in H. apply orb_false_elim in H as [Hc Hs].
  cbn [plus_to_space map]. rewrite N.eqb_sym, Hc.
  f_equal. apply IH. exact Hs.
Qed.

(** A field [name=value] free of [+] and [%], with a name free of [=] and a
    value that is not empty, parses to the pair. *)
Lemma parse_field_plain (n v : str) :
  has_char 61 n = false -> has_char 43 n = false -> has_char 37 n = false ->
  truthy v = true -> has_char 43 v = false -> has_char 37 v = false ->
  parse_field (n ++ 61 :: v) = [(n, v)].
Proof.
  intros Hn1 Hn2 Hn3 Hv1 Hv2 Hv3. unfold parse_field.
  rewrite split_once_found by exact Hn1. rewrite Hv1.
  rewrite !plus_to_space_plain, !unquote_plain by assumption. reflexivity.
Qed.

(** The query of [pre?qs] is [qs], when [pre] is a clean URL prefix and
    [qs] holds no fragment mark and no character that is removed. *)
Lemma url_query_of (pre qs : str) :
  dropwhile_c0 (pre ++ 63 :: qs) = pre ++ 63 :: qs ->
  has_char 9 (pre ++ 63 :: qs) = false ->
  has_char 13 (pre ++ 63 :: qs) = false ->
  has_char 10 (pre ++ 63 :: qs) = false ->
  has_char 35 (pre ++ 63 :: qs) = false ->
  has_char 63 pre = false ->
  url_query (pre ++ 63 :: qs) = qs.
Proof.
  intros Hd H9 H13 H10 H35 H63. unfold url_query. rewrite Hd.
  rewrite filter_all.
  - rewrite (split_once_absent 35) by exact H35.
    rewrite split_once_found by exact H63. reflexivity.
  - apply forallb_forall. intros c Hc.
    apply negb_true_iff. apply orb_false_intro; [apply orb_false_intro|].
    + destruct (c =? 9) eqn:E; [|reflexivity]. apply N.eqb_eq in E. subst c.
      assert (has_char 9 (pre ++ 63 :: qs) = true)
        by (apply existsb_exists; exists 9; split; [exact Hc | reflexivity]).
      congruence.
    + destruct (c =? 13) eqn:E; [|reflexivity]. apply N.eqb_eq in E. subst c.
      assert (has_char 13 (pre ++ 63 :: qs) = true)
        by (apply existsb_exists; exists 13; split; [exact Hc | reflexivity]).
      congruence.
    + destruct (c =? 10) eqn:E; [|reflexivity]. apply N.eqb_eq in E. subst c.
      assert (has_char 10 (pre ++ 63 :: qs) = true)
        by (apply existsb_exists; exists 10; split; [exact Hc | reflexivity]).
      congruence.
Qed.

(** *** UTF-8 *)


Ltac lia_div := zify; Z.to_euclidean_division_equations; lia.

Ltac decide_cmp :=
  repeat match goal with
         | |- context [?a <? ?b] => destruct (N.ltb_spec a b); try lia_div
         | |- context [?a <=? ?b] => destruct (N.leb_spec a b); try lia_div
         | |- context [?a =? ?b] => destruct (N.eqb_spec a b); try lia_div
         end.

Lemma byte_of_N_to_N (n : N) : n < 256 -> Byte.to_N (byte_of_N n) = n.
Proof.
  intros H. unfold byte_of_N. destruct (Byte.of_N n) as [b|] eqn:E.
  - apply Byte.to_of_N. exact E.
  - apply Byte.of_N_None_iff in E. lia.
Qed.

Lemma encodable_char_range (c : N) :
  utf8_encodable_char c = true <-> c < 55296 \/ 57343 < c < 1114112.
Proof. unfold utf8_encodable_char. decide_cmp; cbn; intuition (try lia; try discriminate). Qed.

(** The bytes of a code point are below 256. *)
Lemma encode_char_bytes (c : N) :
  utf8_encodable_char c = true -> Forall (fun b => b < 256) (utf8_encode_char c).
Proof.
  intros H. apply encodable_char_range in H. unfold utf8_encode_char.
  decide_cmp; repeat constructor; lia_div.
Qed.

(** Decoding the bytes of a code point gives it back. *)
Lemma decode_encode_char (c : N) (rest : list N) :
  utf8_encodable_char c = true ->
  utf8_decode_strict (utf8_encode_char c ++ rest)
  = cons c <$> utf8_decode_strict rest.
Proof.
  intros H. apply encodable_char_range in H. unfold utf8_encode_char.
  destruct (N.ltb_spec c 128); [|destruct (N.ltb_spec c 2048);
    [|destruct (N.ltb_spec c 65536)]];
    cbn [app utf8_decode_strict]; unfold is_continuation; decide_cmp; cbn [negb orb andb];
    do 2 f_equal; lia_div.
Qed.

Lemma decode_encode_chars (s : str) :
  utf8_encodable s = true ->
  utf8_decode_strict (concat (map utf8_encode_char s)) = Some s.
Proof.
  induction s as [|c s IH]; [reflexivity|]. cbn [utf8_encodable forallb].
  intros H. apply andb_prop in H as [Hc Hs]. cbn [map concat].
  rewrite (decode_encode_char c _ Hc), (IH Hs). reflexivity.
Qed.

Lemma encode_chars_bytes (s : str) :
  utf8_encodable s = true ->
  map Byte.to_N (map byte_of_N (concat (map utf8_encode_char s)))
  = concat (map utf8_encode_char s).
Proof.
  induction s as [|c s IH]; [reflexivity|]. cbn [utf8_encodable forallb].
  intros H. apply andb_prop in H as [Hc Hs]. cbn [map concat].
  rewrite !map_app, (IH Hs). f_equal.
  pose proof (encode_char_bytes c Hc) as Hb.
  induction Hb as [|b l Hb _ IHl]; [reflexivity|]. cbn [map].
  rewrite (byte_of_N_to_N b Hb), IHl. reflexivity.
Qed.

(** What [encode] writes, [decode] reads back. *)
Lemma utf8_decode_encode (s : str) (b : bytes) :
  utf8_encode s = Some b -> utf8_decode_strict (map Byte.to_N b) = Some s.
Proof.
  unfold utf8_encode. destruct (utf8_encodable s) eqn:E; [|discriminate].
  intros [= <-]. rewrite (encode_chars_bytes s E). apply decode_encode_chars, E.
Qed.

Lemma utf8_encode_encodable (s : str) :
  utf8_encodable s = true <-> is_Some (utf8_encode s).
Proof.
  unfold utf8_encode. destruct (utf8_encodable s); split; try done.
Qed.

Lemma utf8_encodable_app (a b : str) :
  utf8_encodable (a ++ b) = utf8_encodable a && utf8_encodable b.
Proof. apply forallb_app. Qed.

(** The decoder gives no surrogate. *)
Lemma utf8_decode_encodable (n : nat) : forall (bs : list N) (s : str),
  (length bs <= n)%nat ->
  utf8_decode_strict bs = Some s -> utf8_encodable s = true.
Proof.
  induction n as [|n IH]; intros bs s Hn.
  - destruct bs; [|cbn in Hn; lia]. intros [= <-]. reflexivity.
  - destruct bs as [|b1 r1]; [intros [= <-]; reflexivity|].
    cbn [utf8_decode_strict]. cbn [length] in Hn.
    assert (Hstep : forall c r, (length r <= n)%nat ->
              utf8_encodable_char c = true ->
              cons c <$> utf8_decode_strict r = Some s -> utf8_encodable s = true).
    { intros c r Hr Hc H.
      destruct (utf8_decode_strict r) as [s'|] eqn:E; [|discriminate H].
      injection H as <-. cbn [utf8_encodable forallb]. rewrite Hc.
      apply (IH r s' Hr E). }
    destruct (N.ltb_spec b1 128).
    { apply Hstep; [lia|]. apply encodable_char_range. lia. }
    destruct (N.ltb_spec b1 194); [discriminate|].
    destruct (N.ltb_spec b1 224).
    { destruct r1 as [|b2 r2]; [discriminate|]. unfold is_continuation.
      destruct (N.leb_spec 128 b2); [|discriminate].
      destruct (N.ltb_spec b2 192); [|discriminate]. cbn [andb].
      apply Hstep; [cbn [length] in Hn; lia|]. apply encodable_char_range. lia. }
    destruct (N.ltb_spec b1 240).
    { destruct r1 as [|b2 [|b3 r3]]; try discriminate. unfold is_continuation.
      destruct (N.leb_spec 128 b2); [|discriminate].
      destruct (N.ltb_spec b2 192); [|discriminate].
      destruct (N.leb_spec 128 b3); [|cbn; rewrite ?orb_true_r; discriminate].
      destruct (N.ltb_spec b3 192); [|cbn; rewrite ?orb_true_r; discriminate].
      cbn [andb negb orb].
      destruct (N.eqb_spec b1 224); destruct (N.ltb_spec b2 160);
        destruct (N.eqb_spec b1 237); destruct (N.leb_spec 160 b2);
        cbn [andb orb]; try discriminate; try lia;
        (apply Hstep; [cbn [length] in Hn; lia|]; apply encodable_char_range; lia). }
    destruct (N.ltb_spec b1 245); [|discriminate].
    destruct r1 as [|b2 [|b3 [|b4 r4]]]; try discriminate. unfold is_continuation.
    destruct (N.leb_spec 128 b2); [|discriminate].
    destruct (N.ltb_spec b2 192); [|discriminate].
    destruct (N.leb_spec 128 b3); [|cbn; rewrite ?orb_true_r; discriminate].
    destruct (N.ltb_spec b3 192); [|cbn; rewrite ?orb_true_r; discriminate].
    destruct (N.leb_spec 128 b4); [|cbn; rewrite ?orb_true_r; discriminate].
    destruct (N.ltb_spec b4 192); [|cbn; rewrite ?orb_true_r; discriminate].
    cbn [andb negb orb].
    destruct (N.eqb_spec b1 240); destruct (N.ltb_spec b2 144);
      destruct (N.eqb_spec b1 244); destruct (N.leb_spec 144 b2);
      cbn [andb orb]; try discriminate; try lia;
      (apply Hstep; [cbn [length] in Hn; lia|]; apply encodable_char_range; lia).
Qed.

Lemma utf8_decoded_encodable (bs : list N) (s : str) :
  utf8_decode_strict bs = Some s -> utf8_encodable s = true.
Proof. apply (utf8_decode_encodable (length bs)). reflexivity. Qed.

(** Reading and splitting keep a text encodable. *)
Lemma encodable_universal_newlines (n : nat) : forall s : str,
  (length s <= n)%nat ->
  utf8_encodable s = true -> utf8_encodable (universal_newlines s) = true.
Proof.
  induction n as [|n IH]; intros s Hn.
  - destruct s; [reflexivity | cbn in Hn; lia].
  - destruct s as [|c s]; [reflexivity|]. cbn [length] in Hn.
    cbn [universal_newlines utf8_encodable forallb]. intros H.
    apply andb_prop in H as [Hc Hs].
    destruct (c =? 13).
    + destruct s as [|d s]; [reflexivity|].
      cbn [forallb] in Hs. apply andb_prop in Hs as [Hd Hs'].
      destruct (d =? 10); cbn [utf8_encodable forallb].
      * apply (IH s); [cbn [length] in Hn; lia | exact Hs'].
      * apply (IH (d :: s)); [lia|]. cbn [utf8_encodable forallb].
        rewrite Hd. exact Hs'.
    + cbn [utf8_encodable forallb]. rewrite Hc. apply (IH s); [lia | exact Hs].
Qed.

Lemma encodable_splitlines (n : nat) : forall s : str,
  (length s <= n)%nat ->
  utf8_encodable s = true ->
  List.Forall (fun l => utf8_encodable l = true) (splitlines s).
Proof.
  induction n as [|n IH]; intros s Hn.
  - destruct s; [constructor | cbn in Hn; lia].
  - destruct s as [|c s]; [constructor|]. cbn [length] in Hn.
    cbn [splitlines utf8_encodable forallb]. intros H.
    apply andb_prop in H as [Hc Hs].
    destruct (is_linebreak c).
    + destruct s as [|d s]; [repeat constructor|].
      cbn [forallb] in Hs. apply andb_prop in Hs as [Hd Hs'].
      destruct ((c =? 13) && (d =? 10)); constructor; try reflexivity.
      * apply (IH s); [cbn [length] in Hn; lia | exact Hs'].
      * apply (IH (d :: s)); [lia|]. cbn [utf8_encodable forallb].
        rewrite Hd. exact Hs'.
    + pose proof (IH s ltac:(lia) Hs) as Hl.
      destruct (splitlines s) as [|l ls].
      * repeat constructor. cbn. rewrite Hc. reflexivity.
      * inversion Hl; subst. constructor; [|assumption].
        cbn [utf8_encodable forallb]. rewrite Hc. assumption.
Qed.

Lemma encodable_join (sep : str) (L : list str) :
  utf8_encodable sep = true ->
  List.Forall (fun l => utf8_encodable l = true) L ->
  utf8_encodable (join sep L) = true.
Proof.
  intros Hsep H. induction H as [|l L Hl HL IH]; [reflexivity|].
  destruct L as [|l' L]; [exact Hl|].
  change (join sep (l :: l' :: L)) with (l ++ sep ++ join sep (l' :: L)).
  rewrite !utf8_encodable_app, Hl, Hsep, IH. reflexivity.
Qed.

(** The last byte of an encoded text is a line feed only when its last
    character is one. *)
Lemma utf8_encode_last (s : str) (b : bytes) :
  utf8_encode s = Some b -> list.last b = Some Byte.x0a -> endswith s [10] = true.
Proof.
  unfold utf8_encode. destruct (utf8_encodable s) eqn:E; [|discriminate].
  intros [= <-]. destruct s as [|c0 s0] using rev_ind; [discriminate|].
  clear IHs0. rewrite map_app, concat_app, map_app. cbn [map concat].
  rewrite app_nil_r. unfold utf8_encodable in E. rewrite forallb_app in E.
  apply andb_prop in E as [_ E]. cbn [forallb] in E. rewrite andb_true_r in E.
  apply encodable_char_range in E.
  assert (Hb : forall n, n < 256 -> byte_of_N n = Byte.x0a -> n = 10).
  { intros n Hn Hx. apply (f_equal Byte.to_N) in Hx.
    rewrite byte_of_N_to_N in Hx by exact Hn. exact Hx. }
  set (pre := map byte_of_N (concat (map utf8_encode_char s0))).
  unfold utf8_encode_char.
  destruct (N.ltb_spec c0 128); [|destruct (N.ltb_spec c0 2048);
    [|destruct (N.ltb_spec c0 65536)]]; cbn [map];
    rewrite last_app_cons; cbn [list.last];
    intros [= Hx]; apply Hb in Hx; try lia_div.
  subst c0. unfold endswith. rewrite rev_app_distr. reflexivity.
Qed.

Lemma utf8_encode_app (s1 s2 : str) (b1 b2 : bytes) :
  utf8_encode s1 = Some b1 -> utf8_encode s2 = Some b2 ->
  utf8_encode (s1 ++ s2) = Some (b1 ++ b2).
Proof.
  unfold utf8_encode. rewrite utf8_encodable_app.
  destruct (utf8_encodable s1); [|discriminate].
  destruct (utf8_encodable s2); [|discriminate].
  intros [= <-] [= <-]. cbn [andb]. rewrite map_app, concat_app, map_app.
  reflexivity.
Qed.

End PyFacts.

Import PyFacts.

(** ** Facts about the gateway *)
Module GatewayFacts.
Import Gateway.

(** The 401 body names the failure. *)
Lemma unauthorized_body_text :
  contains unauthorized_body (blit "Unauthorized").
Proof.
  exists [], (blit ": missing or invalid x-api-key"). reflexivity.
Qed.

(** X1: a protected HTTP path with a wrong or missing key: 401, and the
    wrapped app is not called. *)
Lemma call_rejects (self : ApiKeyAuthMiddleware) (sc : scope) :
  s_type sc = Some (lit "http") ->
  is_target self (default [] (s_path sc)) = true ->
  presented self sc <> Some (expected_key self) ->
  call self sc = Respond unauthorized.
Proof.
  intros Ht Hp Hk. unfold call, presented in *.
  rewrite bool_decide_eq_true_2 by exact Ht.
  rewrite Hp. rewrite bool_decide_eq_true_2 by exact Hk. reflexivity.
Qed.

(** X2: a path outside both prefixes is forwarded as it came, whatever the
    headers. *)
Lemma call_unrelated_path (self : ApiKeyAuthMiddleware) (sc : scope) :
  is_target self (default [] (s_path sc)) = false ->
  call self sc = CallApp sc.
Proof.
  intros Hp. unfold call. rewrite Hp. by case_bool_decide.
Qed.

(** X3: the right key with a rewrite configured: the external prefix is
    replaced by the internal one, provided the new path encodes as Latin-1. *)
Lemma call_rewrites (self : ApiKeyAuthMiddleware) (sc : scope)
    (inner rest : str) (raw : bytes) :
  s_type sc = Some (lit "http") ->
  s_path sc = Some (sse_path self ++ rest) ->
  rewrite_to self = Some inner -> truthy inner = true ->
  presented self sc = Some (expected_key self) ->
  encode_latin1 (inner ++ rest) = Some raw ->
  call self sc = CallApp (set_path sc (inner ++ rest) raw).
Proof.
  intros Ht Hp Hr Hi Hk He. unfold call, presented, is_target in *.
  rewrite bool_decide_eq_true_2 by exact Ht.
  rewrite Hp, Hr. simpl. rewrite startswith_app, Hi. simpl.
  rewrite bool_decide_eq_false_2 by (intros H; apply H; exact Hk).
  rewrite replace_first_prefix, He. reflexivity.
Qed.

(** The rewrite raises as soon as a character of the new path is above
    U+00FF: the wrapped app is never called. *)
Lemma call_rewrite_raises (self : ApiKeyAuthMiddleware) (sc : scope)
    (inner rest : str) :
  s_type sc = Some (lit "http") ->
  s_path sc = Some (sse_path self ++ rest) ->
  rewrite_to self = Some inner -> truthy inner = true ->
  presented self sc = Some (expected_key self) ->
  encode_latin1 (inner ++ rest) = None ->
  call self sc = Raise UnicodeEncodeError.
Proof.
  intros Ht Hp Hr Hi Hk He. unfold call, presented, is_target in *.
  rewrite bool_decide_eq_true_2 by exact Ht.
  rewrite Hp, Hr. simpl. rewrite startswith_app, Hi. simpl.
  rewrite bool_decide_eq_false_2 by (intros H; apply H; exact Hk).
  rewrite replace_first_prefix, He. reflexivity.
Qed.

(** The three requests of the specification's example, on the gateway as
    [with_api_key_auth] builds it with the secret [s3cret] and the rewrite
    to [/sse]. *)
Lemma mcp_wrong_key :
  call (with_api_key_auth ∅ (Some (lit "s3cret")) (Some (lit "/sse")))
       (http_scope (lit "/mcp/anything") [(blit "x-api-key", blit "wrong")])
  = Respond unauthorized.
Proof.
  apply call_rejects; [reflexivity | reflexivity |].
  vm_compute. discriminate.
Defined.

Lemma mcp_right_key :
  call (with_api_key_auth ∅ (Some (lit "s3cret")) (Some (lit "/sse")))
       (http_scope (lit "/mcp/anything") [(blit "X-Api-Key", blit "s3cret")])
  = CallApp (set_path
               (http_scope (lit "/mcp/anything") [(blit "X-Api-Key", blit "s3cret")])
               (lit "/sse" ++ lit "/anything") (blit "/sse/anything")).
Proof.
  apply (call_rewrites
           (with_api_key_auth ∅ (Some (lit "s3cret")) (Some (lit "/sse")))
           (http_scope (lit "/mcp/anything") [(blit "X-Api-Key", blit "s3cret")])
           (lit "/sse") (lit "/anything") (blit "/sse/anything"));
    vm_compute; reflexivity.
Defined.

Lemma health_passes :
  call (with_api_key_auth ∅ (Some (lit "s3cret")) (Some (lit "/sse")))
       (http_scope (lit "/health") [(blit "x-api-key", blit "wrong")])
  = CallApp (http_scope (lit "/health") [(blit "x-api-key", blit "wrong")]).
Proof. apply call_unrelated_path. reflexivity. Defined.

(** C1, the code at the failing input: a request for [/mcp/] followed by the
    euro sign (U+20AC), with the right key and the rewrite to [/sse]
    configured. The new path [/sse/€] has no Latin-1 encoding, the
    middleware raises [UnicodeEncodeError] and the app never sees the
    request. *)
Theorem call_rewrite_fails_beyond_latin1 :
  call (with_api_key_auth ∅ (Some (lit "s3cret")) (Some (lit "/sse")))
       (http_scope (lit "/mcp/" ++ [8364]) [(blit "x-api-key", blit "s3cret")])
  = Raise UnicodeEncodeError.
Proof. vm_compute. reflexivity. Qed.

(** C10: a scope whose type is not ["http"] (a websocket or lifespan scope,
    or one without a type) reaches the wrapped app as it came, whatever its
    path and headers: no key is checked and no 401 is sent. *)
Theorem call_non_http_forwards (self : ApiKeyAuthMiddleware) (sc : scope) :
  s_type sc <> Some (lit "http") ->
  call self sc = CallApp sc.
Proof.
  intros Ht. unfold call. rewrite bool_decide_eq_false_2 by exact Ht.
  reflexivity.
Qed.

Lemma call_non_http_forwards_witness :
  call (with_api_key_auth ∅ (Some (lit "s3cret")) (Some (lit "/sse")))
       {| s_type := Some (lit "websocket"); s_path := Some (lit "/mcp");
          s_raw_path := None; s_headers := Some []; s_rest := [] |}
  = CallApp {| s_type := Some (lit "websocket"); s_path := Some (lit "/mcp");
               s_raw_path := None; s_headers := Some []; s_rest := [] |}.
Proof. apply call_non_http_forwards. vm_compute. discriminate. Defined.

End GatewayFacts.

(** ** Facts about the OAuth client *)
Module OAuthFacts.
Import OAuth.

(** A client as [__init__] leaves it holds no token. *)
Lemma init_tokens environ cid csec ruri :
  access_token (init environ cid csec ruri) = PNone
  /\ refresh_token (init environ cid csec ruri) = PNone.
Proof. split; reflexivity. Qed.

(** [exchange_token] never touches the client's identity. *)
Lemma exchange_token_frame self c reply :
  let r := exchange_token self c reply in
  client_id (after r) = client_id self
  /\ client_secret (after r) = client_secret self
  /\ redirect_uri (after r) = redirect_uri self.
Proof.
  unfold exchange_token.
  destruct reply as [|st [| |d]]; simpl; auto;
    repeat (match goal with |- context [if ?b then _ else _] => destruct b end;
            simpl; auto).
Qed.

Ltac case_ifs :=
  repeat (match goal with
          | |- context [if ?b then _ else _] => destruct b eqn:?
          end; simpl in *).

(** On a reply that is a JSON object with an accepted status the tokens are
    overwritten, whatever the object holds. *)
Lemma exchange_token_after self c st d :
  is_http_error st = false ->
  after (exchange_token self c (Response st (Dict d)))
  = set_tokens self (get d (lit "access_token")) (refresh_of d).
Proof.
  intros E. unfold exchange_token. rewrite E. case_ifs; reflexivity.
Qed.

(** Any other reply leaves the client as it was, and the answer is [False]. *)
Lemma exchange_token_failed self c reply :
  (forall st d, reply = Response st (Dict d) -> is_http_error st = true) ->
  exchange_token self c reply
  = Result false self (did (exchange_token self c reply)).
Proof.
  intros H. unfold exchange_token.
  destruct reply as [|st [| |d]]; simpl; try reflexivity;
    try (destruct (is_http_error st); reflexivity).
  rewrite (H st d eq_refl). reflexivity.
Qed.

(** A [True] from [exchange_token] means the reply was a success carrying a
    non-empty access token, which is now the client's. *)
Lemma exchange_token_true self c reply :
  ret (exchange_token self c reply) = true ->
  truth (access_token (after (exchange_token self c reply))) = true
  /\ issued_by reply = [access_token (after (exchange_token self c reply))].
Proof.
  unfold exchange_token, issued_by.
  destruct reply as [|st [| |d]]; simpl; try (intros; discriminate).
  - destruct (is_http_error st); intros; discriminate.
  - destruct (is_http_error st); intros; discriminate.
  - destruct (is_http_error st); simpl; try (intros; discriminate).
    destruct (truth (get d (lit "access_token"))) eqn:Ha; simpl;
      [|intros; discriminate].
    case_ifs; intros; try discriminate; simpl; rewrite ?Ha; auto.
Qed.

(** Whatever the reply, the access token afterwards is the old one, or the
    reply's [access_token] entry. *)
Lemma exchange_token_access self c reply :
  let r := exchange_token self c reply in
  access_token (after r) = access_token self
  \/ (truth (access_token (after r)) = true ->
      access_token (after r) ∈ issued_by reply).
Proof.
  simpl. destruct reply as [|st [| |d]]; try (left; reflexivity);
    try (left; unfold exchange_token; destruct (is_http_error st); reflexivity).
  destruct (is_http_error st) eqn:E.
  - left. unfold exchange_token. rewrite E. reflexivity.
  - right. rewrite (exchange_token_after self c st d E).
    simpl. intros Ha. rewrite E, Ha. simpl. constructor.
Qed.

Lemma refresh_access_token_access self reply :
  let r := refresh_access_token self reply in
  access_token (after r) = access_token self
  \/ (truth (access_token (after r)) = true ->
      access_token (after r) ∈ issued_by reply).
Proof.
  unfold refresh_access_token, issued_by.
  destruct (truth (refresh_token self)); simpl; auto.
  destruct reply as [|st [| |d]]; simpl; auto;
    destruct (is_http_error st); simpl; auto.
  right. intros Ha. rewrite Ha. constructor.
Qed.

(** The only thing the two token calls do to the outside is the POST. *)
Lemma exchange_token_uses self c reply :
  concat (map uses_of_effect (did (exchange_token self c reply))) = [].
Proof.
  unfold exchange_token. destruct reply as [|st [| |d]]; simpl; auto;
    case_ifs; reflexivity.
Qed.

Lemma refresh_access_token_uses self reply :
  concat (map uses_of_effect (did (refresh_access_token self reply))) = [].
Proof.
  unfold refresh_access_token. destruct (truth (refresh_token self)); simpl; auto.
  destruct reply as [|st [| |d]]; simpl; auto; case_ifs; reflexivity.
Qed.

Lemma authorize_cases self c reply :
  authorize self c reply = Result false self []
  \/ exists code, authorize self c reply = exchange_token self code reply.
Proof.
  unfold authorize. destruct c as [c|]; auto.
  destruct (truthy c); eauto.
Qed.

(** [get_headers] answers exactly when the client holds a non-empty access
    token, and the header carries that token. *)
Lemma get_headers_token self :
  get_headers self =
  if truth (access_token self)
  then Some [ (lit "Authorization", lit "Bearer " ++ to_str (access_token self));
              (lit "Content-Type", lit "application/json") ]
  else None.
Proof. unfold get_headers. destruct (truth (access_token self)); reflexivity. Qed.

(** [save_tokens] writes only a non-empty access token, the client's. *)
Lemma save_tokens_uses self path io_ok :
  concat (map uses_of_effect (did (save_tokens self path io_ok)))
  = if truth (access_token self) then [InConfigFile (access_token self)] else [].
Proof.
  unfold save_tokens. destruct (truth (access_token self)); reflexivity.
Qed.

Section Invariant.

(** [P] holds of every token that has had a source so far. *)
Variable P : pyval -> Prop.

(** The client's access token, when it holds a usable one, has a source. *)
Definition sourced (self : DidaOAuthClient) : Prop :=
  truth (access_token self) = true -> P (access_token self).

Definition sourced_after (self : DidaOAuthClient) (o : op) (t : pyval) : Prop :=
  P t \/ t ∈ issued_at self o \/ t ∈ loaded [o].

Lemma authenticate_after self c reply written :
  after (authenticate self c reply written) = after (authorize self c reply).
Proof. unfold authenticate. case_ifs; reflexivity. Qed.

Lemma authorize_access self c reply :
  access_token (after (authorize self c reply)) = access_token self
  \/ (truth (access_token (after (authorize self c reply))) = true ->
      access_token (after (authorize self c reply))
      ∈ (if truthy_opt c then issued_by reply else [])).
Proof.
  unfold authorize. destruct c as [c|]; [|left; reflexivity].
  cbn [truthy_opt]. destruct (truthy c); [|left; reflexivity].
  apply exchange_token_access.
Qed.

Lemma step_keeps_sourced self o :
  sourced self ->
  truth (access_token (step self o).1) = true ->
  sourced_after self o (access_token (step self o).1).
Proof.
  unfold sourced, sourced_after, loaded. intros HP.
  destruct o as [c reply|reply|c reply|c reply written|path io|file|];
    cbn [step fst issued_at map concat app].
  - destruct (exchange_token_access self c reply) as [-> | H]; auto.
  - destruct (truth (refresh_token self)) eqn:Hr.
    + destruct (refresh_access_token_access self reply) as [-> | H]; auto.
    + assert (E : after (refresh_access_token self reply) = self)
        by (unfold refresh_access_token; rewrite Hr; reflexivity).
      rewrite E. auto.
  - destruct (authorize_access self c reply) as [-> | H]; auto.
  - rewrite authenticate_after.
    destruct (authorize_access self c reply) as [-> | H]; auto.
  - unfold save_tokens. case_ifs; auto.
  - destruct file as [| | |config]; cbn [load_tokens after access_token]; auto.
    intros _. right. right. constructor.
  - auto.
Qed.

(** The headers [get_headers] gives carry the client's access token. *)
Lemma get_headers_uses self u :
  u ∈ uses_of_headers (get_headers self) ->
  truth (access_token self) = true /\ carries u (access_token self).
Proof.
  rewrite get_headers_token.
  destruct (truth (access_token self)); [|inversion 1].
  cbn. intros Hu. apply list_elem_of_singleton in Hu as ->.
  split; reflexivity.
Qed.

(** Every token an operation hands out is non-empty and has a source. *)
Lemma step_uses_sourced self o u :
  sourced self ->
  u ∈ (step self o).2 ->
  exists t, carries u t /\ truth t = true /\ sourced_after self o t.
Proof.
  unfold sourced, sourced_after, loaded. intros HP.
  destruct o as [c reply|reply|c reply|c reply written|path io|file|];
    cbn [step snd issued_at map concat app].
  - rewrite exchange_token_uses. inversion 1.
  - rewrite refresh_access_token_uses. inversion 1.
  - destruct (authorize_cases self c reply) as [-> | [code ->]]; cbn [did map concat].
    + inversion 1.
    + rewrite exchange_token_uses. inversion 1.
  - unfold authenticate, authorize.
    destruct c as [c|]; [|cbn; inversion 1].
    destruct (truthy c) eqn:Hc; [|cbn; inversion 1].
    cbn [truthy_opt]. rewrite Hc.
    destruct (ret (exchange_token self (PStr c) reply)) eqn:Hr.
    2:{ cbn [ret did after uses_of_headers app]. rewrite app_nil_r.
        rewrite exchange_token_uses. inversion 1. }
    destruct (exchange_token_true self (PStr c) reply Hr) as [Ht Hi].
    rewrite Hi.
    set (a := exchange_token self (PStr c) reply) in *.
    assert (Henv : forall v, v ∈ concat (map uses_of_effect
                       (did a ++ [WriteEnv (access_token (after a))
                                    (refresh_token (after a)) written])) ->
              v = InEnvFile (access_token (after a))).
    { intros v. rewrite map_app, concat_app. unfold a at 1.
      rewrite exchange_token_uses. cbn. intros Hv.
      apply list_elem_of_singleton in Hv. exact Hv. }
    intros Hu.
    assert (Hcase : u = InEnvFile (access_token (after a))
                    \/ u ∈ uses_of_headers (get_headers (after a))).
    { destruct (written && sliceable_val (access_token (after a)));
        cbn [ret did after] in Hu; apply elem_of_app in Hu as [Hu|Hu]; auto.
      inversion Hu. }
    exists (access_token (after a)). split_and!.
    + destruct Hcase as [-> | Hh]; [reflexivity|].
      apply (get_headers_uses _ _ Hh).
    + exact Ht.
    + right. left. constructor.
  - rewrite save_tokens_uses.
    destruct (truth (access_token self)) eqn:Ht; [|inversion 1].
    intros Hu. apply list_elem_of_singleton in Hu as ->.
    exists (access_token self). split_and!; [reflexivity | exact Ht | auto].
  - destruct file; cbn; inversion 1.
  - intros Hu. destruct (get_headers_uses _ _ Hu) as [Ht Hc].
    exists (access_token self). split_and!; [exact Hc | exact Ht | auto].
Qed.

End Invariant.

Lemma loaded_cons o ops : loaded (o :: ops) = loaded [o] ++ loaded ops.
Proof. unfold loaded. simpl. rewrite app_nil_r. reflexivity. Qed.

Lemma run_uses_sourced ops : forall (P : pyval -> Prop) self u,
  sourced P self ->
  u ∈ (run self ops).2 ->
  exists t, carries u t /\ truth t = true
            /\ (P t \/ t ∈ issued self ops \/ t ∈ loaded ops).
Proof.
  induction ops as [|o ops IH]; intros P self u HP; cbn [run snd fst issued].
  - inversion 1.
  - rewrite loaded_cons. intros Hu.
    apply elem_of_app in Hu as [Hu | Hu].
    + destruct (step_uses_sourced P self o u HP Hu) as (t & Hc & Ht & Hs).
      exists t. split_and!; [exact Hc | exact Ht |].
      unfold sourced_after in Hs. rewrite !elem_of_app. tauto.
    + destruct (IH (sourced_after P self o) (step self o).1 u) as (t & Hc & Ht & Hs).
      * intros Ht. apply step_keeps_sourced; assumption.
      * exact Hu.
      * exists t. split_and!; [exact Hc | exact Ht |].
        unfold sourced_after in Hs. rewrite !elem_of_app. tauto.
Qed.

(** C4, the claim as stated fails: after a 200 reply whose JSON object has
    no [access_token] but has a [refresh_token], [exchange_token] returns
    [False] and the client's refresh token, unset before, is set; and after
    a 200 reply without either, the access token the client held is gone. *)
Lemma exchange_token_sets_refresh_on_failure :
  ({[ lit "refresh_token" := PStr (lit "r") ]} : gmap str pyval) !! lit "access_token" = None
  /\ refresh_token fresh = PNone
  /\ ret (exchange_token fresh (PStr (lit "code"))
            (Response 200 (Dict {[ lit "refresh_token" := PStr (lit "r") ]}))) = false
  /\ refresh_token (after (exchange_token fresh (PStr (lit "code"))
            (Response 200 (Dict {[ lit "refresh_token" := PStr (lit "r") ]}))))
     = PStr (lit "r")
  /\ access_token holder = PStr (lit "old")
  /\ access_token (after (exchange_token holder (PStr (lit "code"))
            (Response 200 (Dict {[ lit "error" := PStr (lit "invalid_grant") ]}))))
     = PNone.
Proof. split_and!; vm_compute; reflexivity. Qed.

(** C4, amended: on a reply with an accepted status (200 among them) whose
    JSON object has no [access_token], [exchange_token] returns [False], the
    access token is unset afterwards whatever it was, the refresh token is
    what the reply holds under [refresh_token] or [refreshToken] (unset when
    it holds neither), and the client's identity is untouched. *)
Theorem exchange_token_without_access_token self c st d :
  is_http_error st = false ->
  d !! lit "access_token" = None ->
  ret (exchange_token self c (Response st (Dict d))) = false
  /\ access_token (after (exchange_token self c (Response st (Dict d)))) = PNone
  /\ refresh_token (after (exchange_token self c (Response st (Dict d)))) = refresh_of d
  /\ (d !! lit "refresh_token" = None -> d !! lit "refreshToken" = None ->
      refresh_token (after (exchange_token self c (Response st (Dict d)))) = PNone)
  /\ client_id (after (exchange_token self c (Response st (Dict d)))) = client_id self
  /\ client_secret (after (exchange_token self c (Response st (Dict d)))) = client_secret self
  /\ redirect_uri (after (exchange_token self c (Response st (Dict d)))) = redirect_uri self.
Proof.
  intros E Ha.
  assert (Hg : get d (lit "access_token") = PNone) by (unfold get; rewrite Ha; reflexivity).
  rewrite (exchange_token_after self c st d E), Hg. simpl.
  split_and!; try reflexivity.
  - unfold exchange_token. rewrite E, Hg. reflexivity.
  - intros H1 H2. unfold refresh_of, get, por. rewrite H1, H2. reflexivity.
Qed.

Lemma exchange_token_without_access_token_witness :
  ret (exchange_token fresh (PStr (lit "code")) (Response 200 (Dict ∅))) = false
  /\ access_token (after (exchange_token fresh (PStr (lit "code")) (Response 200 (Dict ∅)))) = PNone
  /\ refresh_token (after (exchange_token fresh (PStr (lit "code")) (Response 200 (Dict ∅)))) = PNone.
Proof.
  destruct (exchange_token_without_access_token fresh (PStr (lit "code")) 200 ∅)
    as (H1 & H2 & _ & H4 & _); [reflexivity | apply lookup_empty |].
  split; [exact H1 | split; [exact H2 | apply H4; apply lookup_empty]].
Defined.

(** C9: without a refresh token (none, or an empty one)
    [refresh_access_token] returns [False], leaves the client as it is and
    issues no HTTP call, whatever the network would answer. *)
Theorem refresh_without_token self reply :
  truth (refresh_token self) = false ->
  refresh_access_token self reply = Result false self [].
Proof. intros H. unfold refresh_access_token. rewrite H. reflexivity. Qed.

Lemma refresh_without_token_witness :
  refresh_access_token fresh
    (Response 200 (Dict {[ lit "access_token" := PStr (lit "new") ]}))
  = Result false fresh [].
Proof. apply refresh_without_token. reflexivity. Defined.

(** C7, the claim as stated fails: loading the file [{}] clears the access
    token the client held, although the key is absent from the file. *)
Lemma load_tokens_clears_access_token :
  (∅ : gmap str pyval) !! lit "access_token" = None
  /\ access_token holder = PStr (lit "old")
  /\ access_token (after (load_tokens holder (Config ∅))) = PNone.
Proof. split_and!; vm_compute; reflexivity. Qed.

(** C7, amended: [load_tokens] leaves [client_id], [client_secret] and
    [redirect_uri] untouched when their key is absent from the file, sets
    [access_token] and [refresh_token] to the file's entries ([None] when
    the key is absent), leaves every field untouched when the file is
    missing, unreadable or no JSON object, and returns [False] whenever the
    file gives no non-empty access token. *)
Theorem load_tokens_frame self file :
  (forall config, file = Config config ->
     (config !! lit "client_id" = None ->
        client_id (after (load_tokens self file)) = client_id self)
     /\ (config !! lit "client_secret" = None ->
        client_secret (after (load_tokens self file)) = client_secret self)
     /\ (config !! lit "redirect_uri" = None ->
        redirect_uri (after (load_tokens self file)) = redirect_uri self)
     /\ access_token (after (load_tokens self file)) = get config (lit "access_token")
     /\ refresh_token (after (load_tokens self file)) = get config (lit "refresh_token")
     /\ ret (load_tokens self file) = truth (get config (lit "access_token")))
  /\ ((forall config, file <> Config config) ->
      load_tokens self file = Result false self [])
  /\ did (load_tokens self file) = [].
Proof.
  split_and!.
  - intros config ->. simpl. unfold get_default.
    split_and!; try reflexivity; intros H; rewrite H; reflexivity.
  - intros H. destruct file as [| | |config]; try reflexivity.
    destruct (H config eq_refl).
  - destruct file; reflexivity.
Qed.

(** *** The authorization URL *)

Lemma url_safe_inv (v : str) :
  url_safe v = true ->
  truthy v = true
  /\ has_char 38 v = false /\ has_char 35 v = false /\ has_char 37 v = false
  /\ has_char 43 v = false /\ has_char 9 v = false /\ has_char 10 v = false
  /\ has_char 13 v = false.
Proof.
  unfold url_safe. rewrite !andb_true_iff, !negb_true_iff. tauto.
Qed.

(** The URL holds the values as they are: nothing is percent-encoded. *)
Lemma get_authorization_url_text (self : DidaOAuthClient) (scope : str) :
  get_authorization_url self scope
  = AUTH_URL ++ 63 ::
      (lit "client_id" ++ 61 :: to_str (client_id self)) ++ 38 ::
      (lit "scope" ++ 61 :: scope) ++ 38 ::
      (lit "state" ++ 61 :: lit "random_state") ++ 38 ::
      (lit "redirect_uri" ++ 61 :: to_str (redirect_uri self)) ++ 38 ::
      (lit "response_type" ++ 61 :: lit "code").
Proof. reflexivity. Qed.

Ltac use_free :=
  repeat match goal with
         | H : has_char ?c ?v = false |- context [has_char ?c ?v] => rewrite H
         end.

Ltac free :=
  repeat (rewrite has_char_app || rewrite has_char_cons); use_free; reflexivity.

(** The fields come back from the query as they went in. *)
Lemma parse_qsl_fields (cid scope ruri : str) :
  url_safe cid = true -> url_safe scope = true -> url_safe ruri = true ->
  parse_qsl ((lit "client_id" ++ 61 :: cid) ++ 38 ::
             (lit "scope" ++ 61 :: scope) ++ 38 ::
             (lit "state" ++ 61 :: lit "random_state") ++ 38 ::
             (lit "redirect_uri" ++ 61 :: ruri) ++ 38 ::
             (lit "response_type" ++ 61 :: lit "code"))
  = [ (lit "client_id", cid); (lit "scope", scope);
      (lit "state", lit "random_state"); (lit "redirect_uri", ruri);
      (lit "response_type", lit "code") ].
Proof.
  intros Hc Hs Hr.
  apply url_safe_inv in Hc as (Hc0 & Hc1 & Hc2 & Hc3 & Hc4 & Hc5 & Hc6 & Hc7).
  apply url_safe_inv in Hs as (Hs0 & Hs1 & Hs2 & Hs3 & Hs4 & Hs5 & Hs6 & Hs7).
  apply url_safe_inv in Hr as (Hr0 & Hr1 & Hr2 & Hr3 & Hr4 & Hr5 & Hr6 & Hr7).
  unfold parse_qsl.
  replace (truthy _) with true by reflexivity.
  rewrite split_piece by free.
  rewrite split_piece by free.
  rewrite split_piece by free.
  rewrite split_piece by free.
  rewrite split_whole by free.
  cbn [map concat].
  rewrite !parse_field_plain by (first [assumption | reflexivity]).
  reflexivity.
Qed.

(** C3, the claim as stated fails: the client id [a&b] goes into the URL as
    it is and comes back as [a]; and the default scope puts a raw space into
    the URL. *)
Lemma authorization_url_is_not_encoded :
  parse_qs (url_query (get_authorization_url
     (init ∅ (PStr (lit "a&b")) (PStr (lit "secret"))
           (PStr (lit "http://localhost:38000/callback")))
     default_scope)) !! lit "client_id" = Some [lit "a"]
  /\ lit "a" <> lit "a&b"
  /\ has_char 32 (get_authorization_url fresh default_scope) = true.
Proof. split_and!; vm_compute; [reflexivity | discriminate | reflexivity]. Qed.

(** C3, amended: [get_authorization_url] puts [client_id], the scope, the
    fixed state, [redirect_uri] and [response_type=code] into the query as
    they are, without percent-encoding; when the client id, the scope and
    the redirect URI are not empty and hold none of [&], [#], [%], [+], tab,
    LF and CR, parsing the query of the URL gives back exactly these five
    parameters with these values. *)
Theorem authorization_url_round_trip (self : DidaOAuthClient)
    (cid ruri scope : str) :
  client_id self = PStr cid -> redirect_uri self = PStr ruri ->
  url_safe cid = true -> url_safe scope = true -> url_safe ruri = true ->
  get_authorization_url self scope
  = AUTH_URL ++ lit "?client_id=" ++ cid ++ lit "&scope=" ++ scope
    ++ lit "&state=random_state&redirect_uri=" ++ ruri
    ++ lit "&response_type=code"
  /\ parse_qsl (url_query (get_authorization_url self scope))
     = [ (lit "client_id", cid); (lit "scope", scope);
         (lit "state", lit "random_state"); (lit "redirect_uri", ruri);
         (lit "response_type", lit "code") ]
  /\ parse_qs (url_query (get_authorization_url self scope))
     = <[lit "client_id" := [cid]]>
         (<[lit "scope" := [scope]]>
            (<[lit "state" := [lit "random_state"]]>
               (<[lit "redirect_uri" := [ruri]]>
                  (<[lit "response_type" := [lit "code"]]> ∅)))).
Proof.
  intros Hcid Hruri Hc Hs Hr.
  assert (Hq : parse_qsl (url_query (get_authorization_url self scope))
               = [ (lit "client_id", cid); (lit "scope", scope);
                   (lit "state", lit "random_state"); (lit "redirect_uri", ruri);
                   (lit "response_type", lit "code") ]).
  { rewrite get_authorization_url_text, Hcid, Hruri. cbn [to_str].
    rewrite <- (parse_qsl_fields cid scope ruri Hc Hs Hr). f_equal.
    apply url_safe_inv in Hc as (Hc0 & Hc1 & Hc2 & Hc3 & Hc4 & Hc5 & Hc6 & Hc7).
    apply url_safe_inv in Hs as (Hs0 & Hs1 & Hs2 & Hs3 & Hs4 & Hs5 & Hs6 & Hs7).
    apply url_safe_inv in Hr as (Hr0 & Hr1 & Hr2 & Hr3 & Hr4 & Hr5 & Hr6 & Hr7).
    apply url_query_of; free. }
  split_and!.
  - rewrite get_authorization_url_text, Hcid, Hruri. cbn [to_str].
    rewrite <- !app_assoc. reflexivity.
  - exact Hq.
  - unfold parse_qs. rewrite Hq. cbn [fold_left fst snd].
    apply map_eq. intros k.
    repeat (rewrite ?lookup_insert_eq, ?lookup_empty;
            first [ rewrite lookup_insert_ne by (vm_compute; discriminate)
                  | idtac ]);
    reflexivity.
Qed.

Lemma authorization_url_round_trip_witness :
  parse_qsl (url_query (get_authorization_url fresh default_scope))
  = [ (lit "client_id", lit "id"); (lit "scope", default_scope);
      (lit "state", lit "random_state");
      (lit "redirect_uri", lit "http://localhost:38000/callback");
      (lit "response_type", lit "code") ].
Proof.
  refine (proj1 (proj2 (authorization_url_round_trip fresh (lit "id")
                          (lit "http://localhost:38000/callback") default_scope
                          _ _ _ _ _))); reflexivity.
Defined.

Lemma load_tokens_frame_witness :
  client_id (after (load_tokens holder
                      (Config {[ lit "access_token" := PStr (lit "new") ]})))
  = client_id holder
  /\ access_token (after (load_tokens holder
                      (Config {[ lit "access_token" := PStr (lit "new") ]})))
     = PStr (lit "new").
Proof.
  destruct (load_tokens_frame holder
              (Config {[ lit "access_token" := PStr (lit "new") ]}))
    as (H & _ & _).
  destruct (H _ eq_refl) as (Hid & _ & _ & Hacc & _).
  split; [apply Hid; vm_compute; reflexivity | rewrite Hacc; vm_compute; reflexivity].
Defined.

(** C2, the claim as stated fails: [load_tokens] then [get_headers] sends a
    token that no exchange or refresh of the session brought. *)
Lemma loaded_token_is_used :
  InHeaders (lit "Bearer stale")
    ∈ (run fresh [Load (Config {[ lit "access_token" := PStr (lit "stale") ]});
                   GetHeaders]).2
  /\ issued fresh [Load (Config {[ lit "access_token" := PStr (lit "stale") ]});
                   GetHeaders] = [].
Proof. split; vm_compute; [left | reflexivity]. Qed.

(** C2, amended: along any sequence of operations on a client made by
    [__init__], whatever goes out carries a non-empty access token that has
    a source: the value of the [Authorization] header of the headers that
    [get_headers] hands out is [Bearer] followed by the text of such a
    token, and the access token given to storage ([save_tokens], the [.env]
    writer) is such a token. Its source is a token call of the session that
    has sent its POST and whose reply was a success holding this token as
    its non-empty [access_token], or the [access_token] entry that
    [load_tokens] read from a stored file. *)
Theorem used_tokens_have_a_source environ cid csec ruri ops u :
  u ∈ (run (init environ cid csec ruri) ops).2 ->
  exists t, carries u t /\ truth t = true
            /\ (t ∈ issued (init environ cid csec ruri) ops \/ t ∈ loaded ops).
Proof.
  intros Hu.
  destruct (run_uses_sourced ops (fun _ => False) (init environ cid csec ruri) u)
    as (t & Hc & Ht & Hs); [intros H; discriminate H | exact Hu |].
  exists t. split_and!; [exact Hc | exact Ht | tauto].
Qed.

Lemma used_tokens_have_a_source_witness :
  exists t, carries (InHeaders (lit "Bearer tok")) t /\ truth t = true
    /\ (t ∈ issued fresh
               [Exchange (PStr (lit "code"))
                  (Response 200 (Dict {[ lit "access_token" := PStr (lit "tok") ]}));
                GetHeaders]
        \/ t ∈ loaded
               [Exchange (PStr (lit "code"))
                  (Response 200 (Dict {[ lit "access_token" := PStr (lit "tok") ]}));
                GetHeaders]).
Proof.
  apply (used_tokens_have_a_source ∅ (PStr (lit "id")) (PStr (lit "secret"))
           (PStr (lit "http://localhost:38000/callback"))
           [Exchange (PStr (lit "code"))
              (Response 200 (Dict {[ lit "access_token" := PStr (lit "tok") ]}));
            GetHeaders]
           (InHeaders (lit "Bearer tok"))).
  vm_compute. left.
Defined.

End OAuthFacts.

(** ** Facts about the bearer check *)
Module HttpServerFacts.
Import HttpServer.

(** Whatever the environment holds, the module ends up with a non-empty
    secret: the first branch of [verify_api_key] is never taken as the
    module runs. *)
Lemma load_api_key_truthy environ : truthy (load_api_key environ) = true.
Proof.
  unfold load_api_key.
  destruct (environ !! lit "MCP_API_KEY") as [k|]; simpl; [|reflexivity].
  destruct k; reflexivity.
Qed.

Lemma load_api_key_default environ :
  environ !! lit "MCP_API_KEY" = None -> load_api_key environ = lit "123".
Proof. intros H. unfold load_api_key. rewrite H. reflexivity. Qed.

(** Header names are matched case-insensitively: [X-API-Key] and
    [x-api-key] are one header. *)
Lemma headers_get_x_api_key hs dflt :
  headers_get hs (lit "x-api-key") dflt = headers_get hs (lit "X-API-Key") dflt.
Proof.
  induction hs as [|[k v] hs IH]; simpl; [reflexivity|].
  rewrite IH. reflexivity.
Qed.

Lemma token_of_bearer hs :
  startswith (headers_get hs (lit "Authorization") []) (lit "Bearer ") = true ->
  token_of hs
  = Some (strip (replace_all (lit "Bearer ") []
                   (headers_get hs (lit "Authorization") []))).
Proof. intros H. unfold token_of. rewrite H. reflexivity. Qed.

Lemma token_of_x_api_key hs :
  startswith (headers_get hs (lit "Authorization") []) (lit "Bearer ") = false ->
  token_of hs
  = if truthy (headers_get hs (lit "X-API-Key") [])
    then Some (strip (headers_get hs (lit "X-API-Key") []))
    else None.
Proof.
  intros H. unfold token_of. rewrite H, headers_get_x_api_key.
  destruct (truthy (headers_get hs (lit "X-API-Key") [])); reflexivity.
Qed.

(** With a secret set, the answer is the comparison of the token. *)
Lemma verify_api_key_token k hs :
  truthy k = true ->
  verify_api_key (Some k) hs = bool_decide (token_of hs = Some k).
Proof.
  intros Hk. unfold verify_api_key. cbn [truthy_opt]. rewrite Hk. cbn [negb].
  destruct (token_of hs) as [[|c t]|]; cbn [truthy_opt truthy negb].
  - case_bool_decide as H; [|reflexivity]. injection H as <-. discriminate.
  - reflexivity.
  - case_bool_decide as H; [discriminate | reflexivity].
Qed.

(** C5, the claim as stated fails. With no secret configured the module
    falls back to ["123"], and a request without any key is answered 401.
    And the token is stripped of surrounding whitespace before the
    comparison: the secret [abc ] (trailing space), presented exactly, is
    rejected. *)
Lemma bearer_check_is_not_exact :
  served ∅ [] = unauthorized
  /\ verify_api_key (Some (lit "abc "))
       [(blit "authorization", blit "Bearer abc ")] = false.
Proof. split; vm_compute; reflexivity. Qed.

(** The secret the module ends up with. *)
Lemma load_api_key_set environ k :
  environ !! lit "MCP_API_KEY" = Some k -> k <> [] -> load_api_key environ = k.
Proof.
  intros H Hk. unfold load_api_key. rewrite H.
  destruct k; [congruence | reflexivity].
Qed.

Lemma load_api_key_empty environ :
  environ !! lit "MCP_API_KEY" = Some [] -> load_api_key environ = lit "123".
Proof. intros H. unfold load_api_key. rewrite H. reflexivity. Qed.

(** C5, amended. [verify_api_key] returns [True] for every request when the
    global [API_KEY] is empty or [None], which the module's own start-up
    never leaves it: with [MCP_API_KEY] unset or empty the secret is
    ["123"], otherwise it is the value of the variable. With a secret [k]:
    an [Authorization] value that is [Bearer ] followed by a text [t]
    without a further [Bearer ] decides alone, and the request is accepted
    exactly when [t], stripped of surrounding whitespace, is [k]; when the
    [Authorization] value does not start with [Bearer ], the [X-API-Key]
    header (looked up without regard to case, so [x-api-key] is the same
    header) decides, stripped; without either the request is rejected. A
    secret that has no surrounding whitespace and does not contain [Bearer ]
    is accepted when presented in either way. A rejected request gets 401
    with JSON-RPC code -32001 before the body is read. *)
Theorem verify_api_key_contract (hs : list (bytes * bytes)) :
  (forall API_KEY, truthy_opt API_KEY = false ->
     verify_api_key API_KEY hs = true /\ mcp_endpoint API_KEY hs = ReadBody)
  /\ (forall environ,
        truthy (load_api_key environ) = true
        /\ (environ !! lit "MCP_API_KEY" = None
            \/ environ !! lit "MCP_API_KEY" = Some [] ->
            load_api_key environ = lit "123")
        /\ (forall k, environ !! lit "MCP_API_KEY" = Some k -> k <> [] ->
            load_api_key environ = k))
  /\ headers_get hs (lit "x-api-key") [] = headers_get hs (lit "X-API-Key") []
  /\ (forall k, truthy k = true ->
       (forall t, headers_get hs (lit "Authorization") [] = lit "Bearer " ++ t ->
          ~ contains t (lit "Bearer ") ->
          verify_api_key (Some k) hs = bool_decide (strip t = k))
       /\ (startswith (headers_get hs (lit "Authorization") []) (lit "Bearer ") = false ->
          verify_api_key (Some k) hs
          = truthy (headers_get hs (lit "X-API-Key") [])
            && bool_decide (strip (headers_get hs (lit "X-API-Key") []) = k))
       /\ (strip k = k -> ~ contains k (lit "Bearer ") ->
          headers_get hs (lit "Authorization") [] = lit "Bearer " ++ k ->
          verify_api_key (Some k) hs = true)
       /\ (strip k = k ->
          startswith (headers_get hs (lit "Authorization") []) (lit "Bearer ") = false ->
          headers_get hs (lit "X-API-Key") [] = k ->
          verify_api_key (Some k) hs = true)
       /\ (verify_api_key (Some k) hs = false ->
          mcp_endpoint (Some k) hs = unauthorized)
       /\ (verify_api_key (Some k) hs = true ->
          mcp_endpoint (Some k) hs = ReadBody)).
Proof.
  split_and!.
  - intros API_KEY H. unfold mcp_endpoint, verify_api_key. rewrite H. auto.
  - intros environ. split_and!.
    + apply load_api_key_truthy.
    + intros [H|H]; [apply load_api_key_default | apply load_api_key_empty]; exact H.
    + apply load_api_key_set.
  - apply headers_get_x_api_key.
  - intros k Hk.
    assert (Hinj : forall a : str, bool_decide (Some a = Some k) = bool_decide (a = k)).
    { intros a. apply bool_decide_ext. split; [intros [= ->] | intros ->]; reflexivity. }
    assert (Hbearer : forall t,
              headers_get hs (lit "Authorization") [] = lit "Bearer " ++ t ->
              ~ contains t (lit "Bearer ") ->
              verify_api_key (Some k) hs = bool_decide (strip t = k)).
    { intros t Ha Hc.
      rewrite verify_api_key_token, token_of_bearer by
        (try assumption; rewrite Ha; apply startswith_app).
      rewrite Ha, replace_all_prefix by (try reflexivity; assumption).
      apply Hinj. }
    split_and!.
    + exact Hbearer.
    + intros Hb. rewrite verify_api_key_token, token_of_x_api_key by assumption.
      destruct (truthy (headers_get hs (lit "X-API-Key") [])); cbn [andb].
      * apply Hinj.
      * case_bool_decide as H; [discriminate | reflexivity].
    + intros Hs Hc Ha. rewrite (Hbearer k Ha Hc), Hs.
      apply bool_decide_eq_true_2. reflexivity.
    + intros Hs Hb Hx.
      rewrite verify_api_key_token, token_of_x_api_key by assumption.
      rewrite Hx, Hk, Hs. apply bool_decide_eq_true_2. reflexivity.
    + intros Hv. unfold mcp_endpoint. cbn [truthy_opt]. rewrite Hk, Hv. reflexivity.
    + intros Hv. unfold mcp_endpoint. cbn [truthy_opt]. rewrite Hk, Hv. reflexivity.
Qed.

Lemma verify_api_key_contract_witness :
  verify_api_key (Some (lit "abc"))
    [(blit "authorization", blit "Bearer abc"); (blit "x-api-key", blit "other")]
  = true.
Proof.
  destruct (verify_api_key_contract
              [(blit "authorization", blit "Bearer abc");
               (blit "x-api-key", blit "other")]) as (_ & _ & _ & H).
  destruct (H (lit "abc") eq_refl) as (_ & _ & Hacc & _).
  apply Hacc.
  - vm_compute. reflexivity.
  - intros (pre & post & E). apply (f_equal length) in E.
    rewrite !length_app in E. simpl in E. lia.
  - vm_compute. reflexivity.
Defined.

End HttpServerFacts.

(** ** Facts about the [.env] writer *)
Module EnvFileFacts.
Import EnvFile.

Lemma access_line_is_access (a : str) :
  startswith (ACCESS ++ lit "=" ++ a) (ACCESS ++ lit "=") = true.
Proof. rewrite app_assoc. apply startswith_app. Qed.

Lemma refresh_line_is_refresh (r : str) :
  startswith (REFRESH ++ lit "=" ++ r) (REFRESH ++ lit "=") = true.
Proof. rewrite app_assoc. apply startswith_app. Qed.

Lemma access_line_not_refresh (a : str) :
  startswith (ACCESS ++ lit "=" ++ a) (REFRESH ++ lit "=") = false.
Proof. reflexivity. Qed.

Lemma refresh_line_not_access (r : str) :
  startswith (REFRESH ++ lit "=" ++ r) (ACCESS ++ lit "=") = false.
Proof. reflexivity. Qed.

(** [refresh_token or ""] is a string: the token, or the empty string. *)
Lemma refresh_value (r : option str) :
  por (opt r) (PStr []) = PStr (default [] r).
Proof. destruct r as [[|c s]|]; reflexivity. Qed.

(** The lines after the two upserts: the unrelated lines, in their order,
    then the access line, then the refresh line. *)
Lemma upserted_lines (lines : list str) (a : str) (r : option str) :
  upsert REFRESH (por (opt r) (PStr [])) (upsert ACCESS (PStr a) lines)
  = List.filter unrelated lines
    ++ [ACCESS ++ lit "=" ++ a; REFRESH ++ lit "=" ++ default [] r].
Proof.
  rewrite refresh_value. unfold upsert. cbn [to_str].
  rewrite List.filter_app. cbn [List.filter].
  rewrite access_line_not_refresh. cbn [negb].
  unfold unrelated. rewrite filter_and, <- app_assoc. reflexivity.
Qed.

Lemma unrelated_filtered (lines : list str) :
  forallb unrelated (List.filter unrelated lines) = true.
Proof. apply forallb_filter. Qed.

Lemma key_lines_one_line (a : str) (r : option str) :
  one_line a = true -> one_line (default [] r) = true ->
  one_line (ACCESS ++ lit "=" ++ a) = true
  /\ one_line (REFRESH ++ lit "=" ++ default [] r) = true.
Proof.
  intros Ha Hr. rewrite !one_line_app, Ha, Hr. split; reflexivity.
Qed.

(** The text written, and how it reads back. *)
Lemma written_text (text : option str) (a : str) (r : option str) :
  one_line a = true -> one_line (default [] r) = true ->
  new_content text (PStr a) (opt r)
  = join [10] (List.filter unrelated (read_lines text)
               ++ [ACCESS ++ lit "=" ++ a; REFRESH ++ lit "=" ++ default [] r])
    ++ [10].
Proof.
  intros Ha Hr. unfold new_content. rewrite upserted_lines.
  f_equal. unfold content_endswith_newline.
  change (List.filter unrelated (read_lines text)
          ++ [ACCESS ++ lit "=" ++ a; REFRESH ++ lit "=" ++ default [] r])
    with (List.filter unrelated (read_lines text)
          ++ [ACCESS ++ lit "=" ++ a] ++ [REFRESH ++ lit "=" ++ default [] r]).
  rewrite app_assoc, last_snoc.
  destruct (key_lines_one_line a r Ha Hr) as [_ H].
  pose proof (endswith_newline_line [] _ H) as He. cbn [app] in He.
  rewrite He; [reflexivity|]. unfold REFRESH. discriminate.
Qed.

Lemma written_lines (text : option str) (a : str) (r : option str) :
  one_line a = true -> one_line (default [] r) = true ->
  read_lines (Some (new_content text (PStr a) (opt r)))
  = List.filter unrelated (read_lines text)
    ++ [ACCESS ++ lit "=" ++ a; REFRESH ++ lit "=" ++ default [] r].
Proof.
  intros Ha Hr. rewrite written_text by assumption.
  destruct (key_lines_one_line a r Ha Hr) as [HA HR].
  assert (HL : Forall (fun l => one_line l = true)
                 (List.filter unrelated (read_lines text)
                  ++ [ACCESS ++ lit "=" ++ a; REFRESH ++ lit "=" ++ default [] r])).
  { apply Forall_app. split.
    - apply List.Forall_forall. intros l Hl.
      apply List.filter_In in Hl as [Hl _].
      destruct text as [content|]; [|destruct Hl].
      pose proof (splitlines_one_line (universal_newlines content)) as H.
      rewrite List.Forall_forall in H. apply H. exact Hl.
    - repeat constructor; assumption. }
  unfold read_lines at 1.
  rewrite universal_newlines_one_line by (apply no_cr_join; exact HL).
  apply splitlines_join; [|exact HL].
  destruct (List.filter unrelated (read_lines text)); discriminate.
Qed.

Lemma key_lines_related (a r : str) :
  List.filter unrelated [ACCESS ++ lit "=" ++ a; REFRESH ++ lit "=" ++ r] = [].
Proof.
  unfold unrelated. cbn [List.filter].
  rewrite access_line_is_access, refresh_line_is_refresh, refresh_line_not_access.
  reflexivity.
Qed.

(** The text assembled twice is the text assembled once. *)
Lemma new_content_idempotent (text : option str) (a : str) (r : option str) :
  one_line a = true -> one_line (default [] r) = true ->
  new_content (Some (new_content text (PStr a) (opt r))) (PStr a) (opt r)
  = new_content text (PStr a) (opt r).
Proof.
  intros Ha Hr. rewrite (written_text (Some _)) by assumption.
  rewrite written_lines by assumption.
  rewrite List.filter_app, key_lines_related, app_nil_r.
  rewrite (filter_all _ _ (unrelated_filtered _)).
  symmetry. apply written_text; assumption.
Qed.

(** A file that decodes gives an encodable text. *)
Lemma file_text_encodable (f : file) (t : str) :
  file_text f = Some (Some t) -> utf8_encodable t = true.
Proof.
  destruct f as [b|]; [|discriminate]. cbn [file_text].
  destruct (utf8_decode_strict (map Byte.to_N b)) as [t'|] eqn:E; [|discriminate].
  intros [= <-]. exact (utf8_decoded_encodable _ _ E).
Qed.

Lemma read_lines_encodable (text : option str) :
  (forall t, text = Some t -> utf8_encodable t = true) ->
  List.Forall (fun l => utf8_encodable l = true) (read_lines text).
Proof.
  intros H. destruct text as [t|]; [|constructor]. cbn [read_lines].
  apply (encodable_splitlines (length (universal_newlines t))); [reflexivity|].
  apply (encodable_universal_newlines (length t)); [reflexivity|].
  apply H. reflexivity.
Qed.

(** The text assembled from an encodable text and encodable tokens is
    encodable. *)
Lemma new_content_encodable (text : option str) (a : str) (r : option str) :
  one_line a = true -> one_line (default [] r) = true ->
  utf8_encodable a = true -> utf8_encodable (default [] r) = true ->
  (forall t, text = Some t -> utf8_encodable t = true) ->
  utf8_encodable (new_content text (PStr a) (opt r)) = true.
Proof.
  intros Ha Hr Ea Er Ht. rewrite written_text by assumption.
  rewrite utf8_encodable_app. apply andb_true_intro. split; [|reflexivity].
  apply encodable_join; [reflexivity|]. apply List.Forall_app. split.
  - pose proof (read_lines_encodable text Ht) as H.
    rewrite List.Forall_forall in *. intros l Hl.
    apply List.filter_In in Hl as [Hl _]. apply H, Hl.
  - repeat constructor; rewrite !utf8_encodable_app, ?Ea, ?Er; reflexivity.
Qed.

(** Storing an encodable text: no exception, the file holds its bytes and
    reads back as the text. *)
Lemma store_encodable (content : str) :
  utf8_encodable content = true ->
  exists b, utf8_encode content = Some b
            /\ store content = {| raised := None; file_after := Some b |}
            /\ file_text (Some b) = Some (Some content).
Proof.
  intros H. apply utf8_encode_encodable in H as [b Hb]. exists b.
  unfold store. rewrite Hb. split_and!; try reflexivity.
  cbn [file_text]. rewrite (utf8_decode_encode _ _ Hb). reflexivity.
Qed.

(** The call on a file that decodes, with tokens that hold no line boundary
    and no surrogate: it returns, and the file holds the text assembled. *)
Lemma written_file (f : file) (text : option str) (a : str) (r : option str) :
  one_line a = true -> one_line (default [] r) = true ->
  utf8_encodable a = true -> utf8_encodable (default [] r) = true ->
  file_text f = Some text ->
  exists b,
    utf8_encode (new_content text (PStr a) (opt r)) = Some b
    /\ write_env_tokens f (PStr a) (opt r)
       = {| raised := None; file_after := Some b |}
    /\ file_text (Some b) = Some (Some (new_content text (PStr a) (opt r))).
Proof.
  intros Ha Hr Ea Er Hf.
  assert (Ht : forall t, text = Some t -> utf8_encodable t = true).
  { intros t ->. exact (file_text_encodable _ _ Hf). }
  pose proof (new_content_encodable text a r Ha Hr Ea Er Ht) as Hc.
  destruct (store_encodable _ Hc) as (b & Hb & Hstore & Hread).
  exists b. split_and!; [exact Hb | | exact Hread].
  unfold write_env_tokens. rewrite Hf. exact Hstore.
Qed.

(** C6, the claim as stated fails. With the access token [a] followed by a
    line feed, a second application changes the file once more. With a file
    that is not UTF-8 the call raises and writes nothing. And with an
    access token that holds a surrogate the call raises after the file was
    emptied: the unrelated line [FOO=1] is lost. *)
Lemma write_env_tokens_not_idempotent :
  file_after
    (write_env_tokens
       (file_after (write_env_tokens None (PStr (lit "a" ++ [10])) PNone))
       (PStr (lit "a" ++ [10])) PNone)
  <> file_after (write_env_tokens None (PStr (lit "a" ++ [10])) PNone)
  /\ write_env_tokens (Some [Byte.xff]) (PStr (lit "abc")) PNone
     = {| raised := Some UnicodeDecodeError; file_after := Some [Byte.xff] |}
  /\ write_env_tokens (Some (blit "FOO=1")) (PStr [55296]) PNone
     = {| raised := Some UnicodeEncodeError; file_after := Some [] |}.
Proof. split_and!; vm_compute; [discriminate | reflexivity | reflexivity]. Qed.

(** C6, amended: for every file that is UTF-8 (or no file) and every access
    token and optional refresh token that hold no line boundary and no
    surrogate, [write_env_tokens] returns, and applying it once more with
    the same tokens returns too and leaves the same bytes; the file then
    reads as the unrelated lines of the old file, in their order, followed
    by the [DIDA_ACCESS_TOKEN=] line and the [DIDA_REFRESH_TOKEN=] line, the
    latter with an empty value when the refresh token is [None]; so
    unrelated lines are kept, each key has exactly one line, and the file
    ends in exactly one line feed. For a file that is not UTF-8 the call
    raises [UnicodeDecodeError] and leaves the file as it is. *)
Theorem write_env_tokens_contract (f : file) (a : str) (r : option str) :
  one_line a = true -> one_line (default [] r) = true ->
  utf8_encodable a = true -> utf8_encodable (default [] r) = true ->
  (file_text f = None ->
   write_env_tokens f (PStr a) (opt r)
   = {| raised := Some UnicodeDecodeError; file_after := f |})
  /\ (forall text, file_text f = Some text ->
      exists (b : bytes) (text' : str),
        write_env_tokens f (PStr a) (opt r)
        = {| raised := None; file_after := Some b |}
        /\ write_env_tokens (Some b) (PStr a) (opt r)
           = {| raised := None; file_after := Some b |}
        /\ file_text (Some b) = Some (Some text')
        /\ read_lines (Some text')
           = List.filter unrelated (read_lines text)
             ++ [ACCESS ++ lit "=" ++ a; REFRESH ++ lit "=" ++ default [] r]
        /\ (r = None -> In (REFRESH ++ lit "=") (read_lines (Some text')))
        /\ List.filter unrelated (read_lines (Some text'))
           = List.filter unrelated (read_lines text)
        /\ List.filter (fun ln => startswith ln (ACCESS ++ lit "="))
             (read_lines (Some text'))
           = [ACCESS ++ lit "=" ++ a]
        /\ List.filter (fun ln => startswith ln (REFRESH ++ lit "="))
             (read_lines (Some text'))
           = [REFRESH ++ lit "=" ++ default [] r]
        /\ exists body, b = body ++ [Byte.x0a]
                        /\ list.last body <> Some Byte.x0a).
Proof.
  intros Ha Hr Ea Er. split.
  { intros Hf. unfold write_env_tokens. rewrite Hf. reflexivity. }
  intros text Hf.
  destruct (written_file f text a r Ha Hr Ea Er Hf) as (b & Hb & Hstore & Hread).
  assert (Hc : utf8_encodable (new_content text (PStr a) (opt r)) = true).
  { apply utf8_encode_encodable. eexists. exact Hb. }
  exists b, (new_content text (PStr a) (opt r)).
  pose proof (written_lines text a r Ha Hr) as HL.
  assert (HU : List.filter unrelated
                 (read_lines (Some (new_content text (PStr a) (opt r))))
               = List.filter unrelated (read_lines text)).
  { rewrite HL, List.filter_app, key_lines_related, app_nil_r.
    apply filter_all, unrelated_filtered. }
  split_and!.
  - exact Hstore.
  - destruct (written_file (Some b) _ a r Ha Hr Ea Er Hread) as (b' & Hb' & Hstore' & _).
    rewrite new_content_idempotent in Hb' by assumption.
    rewrite Hb in Hb'. injection Hb' as <-. exact Hstore'.
  - exact Hread.
  - exact HL.
  - intros ->. rewrite HL. apply in_or_app. right. right. left.
    cbn [default]. rewrite app_nil_r. reflexivity.
  - exact HU.
  - rewrite HL, List.filter_app. cbn [List.filter].
    rewrite access_line_is_access, refresh_line_not_access.
    rewrite (filter_none _ unrelated); [reflexivity | apply unrelated_filtered |].
    intros l H. unfold unrelated in H. apply andb_prop in H as [H _].
    apply negb_true_iff in H. exact H.
  - rewrite HL, List.filter_app. cbn [List.filter].
    rewrite access_line_not_refresh, refresh_line_is_refresh.
    rewrite (filter_none _ unrelated); [reflexivity | apply unrelated_filtered |].
    intros l H. unfold unrelated in H. apply andb_prop in H as [_ H].
    apply negb_true_iff in H. exact H.
  - assert (Hbody : exists body,
              new_content text (PStr a) (opt r) = body ++ [10]
              /\ endswith body [10] = false).
    { rewrite written_text by assumption.
      change (List.filter unrelated (read_lines text)
              ++ [ACCESS ++ lit "=" ++ a; REFRESH ++ lit "=" ++ default [] r])
        with (List.filter unrelated (read_lines text)
              ++ [ACCESS ++ lit "=" ++ a] ++ [REFRESH ++ lit "=" ++ default [] r]).
      rewrite app_assoc.
      destruct (join_last [10] (List.filter unrelated (read_lines text)
                                ++ [ACCESS ++ lit "=" ++ a])
                  (REFRESH ++ lit "=" ++ default [] r)) as [pre Hp].
      exists (pre ++ REFRESH ++ lit "=" ++ default [] r). split.
      + rewrite Hp. reflexivity.
      + apply endswith_newline_line.
        * apply (key_lines_one_line a r Ha Hr).
        * unfold REFRESH. discriminate. }
    destruct Hbody as (body & Hcontent & Hend).
    rewrite Hcontent in Hc, Hb. rewrite utf8_encodable_app in Hc.
    apply andb_prop in Hc as [Hcb _].
    apply utf8_encode_encodable in Hcb as [bb Hbb].
    rewrite (utf8_encode_app body [10] bb [Byte.x0a] Hbb eq_refl) in Hb.
    injection Hb as <-. exists bb. split; [reflexivity|].
    intros Hlast. rewrite (utf8_encode_last _ _ Hbb Hlast) in Hend. discriminate.
Qed.

Lemma write_env_tokens_contract_witness :
  exists (b : bytes) (text' : str),
    write_env_tokens (Some (blit "FOO=1")) (PStr (lit "abc")) (opt (Some (lit "def")))
    = {| raised := None; file_after := Some b |}
    /\ write_env_tokens (Some b) (PStr (lit "abc")) (opt (Some (lit "def")))
       = {| raised := None; file_after := Some b |}
    /\ file_text (Some b) = Some (Some text').
Proof.
  destruct (proj2 (write_env_tokens_contract (Some (blit "FOO=1")) (lit "abc")
                     (Some (lit "def")) eq_refl eq_refl eq_refl eq_refl)
              (Some (lit "FOO=1")) eq_refl)
    as (b & text' & H1 & H2 & H3 & _).
  exists b, text'. split_and!; assumption.
Defined.

(** The specification's example: tokens [abc] and [def] into a file that
    holds another setting and an old access token. *)
Example write_env_tokens_example :
  write_env_tokens
    (Some (blit "FOO=1" ++ [Byte.x0a] ++ blit "DIDA_ACCESS_TOKEN=old" ++ [Byte.x0a]))
    (PStr (lit "abc")) (PStr (lit "def"))
  = {| raised := None;
       file_after :=
         Some (blit "FOO=1" ++ [Byte.x0a] ++ blit "DIDA_ACCESS_TOKEN=abc"
               ++ [Byte.x0a] ++ blit "DIDA_REFRESH_TOKEN=def" ++ [Byte.x0a]) |}.
Proof. vm_compute. reflexivity. Qed.

End EnvFileFacts.

(** ** Facts about the callback listener *)
Module CallbackFacts.
Import Callback.

(** [parse_qs] never maps a name to an empty list. *)
Lemma parse_qs_values (qs k : str) (vs : list str) :
  parse_qs qs !! k = Some vs -> vs <> [].
Proof.
  unfold parse_qs.
  assert (H : forall (l : list (str * str)) (m : gmap str (list str)),
            (forall k vs, m !! k = Some vs -> vs <> []) ->
            forall k vs,
              fold_left (fun m nv => <[nv.1 := default [] (m !! nv.1) ++ [nv.2]]> m) l m
                !! k = Some vs -> vs <> []).
  { induction l as [|nv l IH]; intros m Hm k' vs'; simpl; [apply Hm|].
    apply IH. intros k2 vs2.
    destruct (decide (nv.1 = k2)) as [<- | Hne].
    - rewrite lookup_insert_eq. intros [= <-].
      destruct (default [] (m !! nv.1)); discriminate.
    - rewrite lookup_insert_ne by exact Hne. apply Hm. }
  apply H. intros k' vs'. rewrite lookup_empty. discriminate.
Qed.


Section Listener.

Variable urlparse_query : str -> option str.

Abbreviation do_GET := (do_GET urlparse_query).
Abbreviation handle_request := (handle_request urlparse_query).
Abbreviation run_server := (run_server urlparse_query).
Abbreviation carries_code := (carries_code urlparse_query).
Abbreviation code_of := (code_of urlparse_query).

(** A request without a [code] leaves the attribute as it is. *)
Lemma handle_request_without_code (authorization_code : option str) (req : request) :
  ~ carries_code req ->
  (handle_request authorization_code req).1 = authorization_code.
Proof.
  unfold Callback.carries_code, Callback.code_of, Callback.handle_request,
    Callback.do_GET.
  intros H. destruct req as [[status|]|command path]; try reflexivity.
  destruct (bool_decide (command = lit "GET")); [|reflexivity].
  destruct (params_of urlparse_query path) as [params|]; [|reflexivity].
  cbn [mbind option_bind] in H.
  destruct (params !! lit "code") as [[|c vs]|]; try reflexivity.
  destruct H. eexists. reflexivity.
Qed.


(** A request with a [code] gets the 200 page and sets the attribute to the
    first value of the parameter. *)
Lemma handle_request_with_code (authorization_code : option str) (req : request) :
  carries_code req ->
  exists c, code_of req = Some c
            /\ handle_request authorization_code req = (Some c, Page success).
Proof.
  unfold Callback.carries_code, Callback.code_of, Callback.handle_request,
    Callback.do_GET.
  intros [c H]. exists c. destruct req as [status|command path]; [discriminate H|].
  destruct (bool_decide (command = lit "GET")); [|discriminate H].
  destruct (params_of urlparse_query path) as [params|]; [|discriminate H].
  cbn [mbind option_bind] in *.
  destruct (params !! lit "code") as [[|c' vs]|]; try discriminate H.
  injection H as <-. split; reflexivity.
Qed.

Lemma run_server_captured (c : str) (incoming : list request) :
  run_server (Some c) incoming = (Some c, []).
Proof. destruct incoming; reflexivity. Qed.

(** The loop: every request up to the first that carries a code is
    answered and leaves the attribute [None], that one gets the 200 page,
    and nothing after it is handled. *)
Lemma run_server_trace (incoming : list request) :
  (Forall (fun req => ~ carries_code req) incoming
   /\ run_server None incoming
      = (None, map (fun req => (handle_request None req).2) incoming))
  \/ (exists pre req post c,
        incoming = pre ++ req :: post
        /\ Forall (fun req => ~ carries_code req) pre
        /\ carries_code req
        /\ code_of req = Some c
        /\ run_server None incoming
           = (Some c, map (fun req => (handle_request None req).2) pre
                      ++ [Page success])).
Proof.
  induction incoming as [|req rest IH].
  - left. split; [constructor | reflexivity].
  - destruct (decide (carries_code req)) as [Hc | Hc].
    + right. destruct (handle_request_with_code None req Hc) as (c & Hcode & Hget).
      exists [], req, rest, c. split_and!; try done.
      cbn [Callback.run_server]. rewrite Hget. cbn [fst snd].
      rewrite run_server_captured. reflexivity.
    + pose proof (handle_request_without_code None req Hc) as Hget.
      destruct IH as [[Hall Hrun] | (pre & p & post & c & -> & Hall & Hp & Hcode & Hrun)].
      * left. split; [constructor; assumption|].
        cbn [Callback.run_server]. rewrite Hget. cbn [fst snd map].
        rewrite Hrun. reflexivity.
      * right. exists (req :: pre), p, post, c. split_and!; try done.
        -- constructor; assumption.
        -- cbn [Callback.run_server]. rewrite Hget. cbn [fst snd map app].
           rewrite Hrun. reflexivity.
Qed.


End Listener.


(** Requests as a browser sends them: a favicon fetch, a denied
    authorization, the redirect with the code, a retry. *)
Example listener_example :
  Callback.run_server accepts None
    [Request (lit "GET") (lit "/favicon.ico");
     Request (lit "GET") (lit "/callback?error=access_denied");
     Request (lit "GET") (lit "/callback?code=abc&state=random_state");
     Request (lit "GET") (lit "/callback?code=zzz")]
  = (Some (lit "abc"), [Page failure; Page failure; Page success]).
Proof. vm_compute. reflexivity. Qed.


(** A [code] without a value is no [code]: [parse_qs] drops it. *)
Example listener_blank_code :
  Callback.handle_request accepts None (Request (lit "GET") (lit "/callback?code="))
  = (None, Page failure).
Proof. vm_compute. reflexivity. Qed.

End CallbackFacts.

(** ** More facts about the gateway *)
Module GatewayMore.
Import Gateway.

(** X4: whenever the wrapped app is called, the scope it gets has the type,
    the headers and the remaining entries of the incoming scope; it is the
    incoming scope itself, or differs from it in [path] and [raw_path] only,
    the external prefix of the path being replaced by [rewrite_to]. *)
Theorem call_frame (self : ApiKeyAuthMiddleware) (sc sc' : scope) :
  call self sc = CallApp sc' ->
  s_type sc' = s_type sc /\ s_headers sc' = s_headers sc /\ s_rest sc' = s_rest sc
  /\ (sc' = sc
      \/ exists inner rest raw,
           rewrite_to self = Some inner
           /\ default [] (s_path sc) = sse_path self ++ rest
           /\ encode_latin1 (inner ++ rest) = Some raw
           /\ sc' = set_path sc (inner ++ rest) raw).
Proof.
  unfold call. intros H.
  destruct (bool_decide (s_type sc = Some (lit "http")));
    [|injection H as <-; auto].
  destruct (is_target self (default [] (s_path sc)));
    [|injection H as <-; auto].
  destruct (bool_decide (_ ≠ _)); [discriminate H|].
  destruct (truthy_opt (rewrite_to self)) eqn:Hr; cbn [andb] in H;
    [|injection H as <-; auto].
  destruct (startswith (default [] (s_path sc)) (sse_path self)) eqn:Hs;
    [|injection H as <-; auto].
  destruct (rewrite_to self) as [inner|] eqn:Hi;
    [|unfold truthy_opt in Hr; discriminate Hr].
  destruct (startswith_inv _ _ Hs) as [rest Hrest].
  cbn [default] in H. rewrite Hrest, replace_first_prefix in H.
  change (id inner) with inner in H.
  destruct (encode_latin1 (inner ++ rest)) as [raw|] eqn:He; [|discriminate H].
  injection H as <-. split_and!; try reflexivity.
  right. exists inner, rest, raw. split_and!; auto.
Qed.

Lemma call_frame_witness :
  s_headers (set_path
               (http_scope (lit "/mcp/anything") [(blit "X-Api-Key", blit "s3cret")])
               (lit "/sse" ++ lit "/anything") (blit "/sse/anything"))
  = s_headers (http_scope (lit "/mcp/anything") [(blit "X-Api-Key", blit "s3cret")]).
Proof.
  refine (proj1 (proj2 (call_frame
            (with_api_key_auth ∅ (Some (lit "s3cret")) (Some (lit "/sse")))
            (http_scope (lit "/mcp/anything") [(blit "X-Api-Key", blit "s3cret")])
            _ _))).
  vm_compute. reflexivity.
Defined.

(** X5: an HTTP request with the right key is handed on untouched when no
    rewrite is configured ([rewrite_to] is [None] or empty), and also when
    its path is under the internal path only. *)
Theorem call_accepts_unchanged (self : ApiKeyAuthMiddleware) (sc : scope) :
  presented self sc = Some (expected_key self) ->
  truthy_opt (rewrite_to self) = false
  \/ startswith (default [] (s_path sc)) (sse_path self) = false ->
  call self sc = CallApp sc.
Proof.
  intros Hk Hn. unfold call, presented in *.
  destruct (bool_decide (s_type sc = Some (lit "http"))); [|reflexivity].
  destruct (is_target self (default [] (s_path sc))); [|reflexivity].
  rewrite bool_decide_eq_false_2 by (intros H; apply H; exact Hk).
  destruct Hn as [-> | ->]; [reflexivity|].
  rewrite andb_false_r. reflexivity.
Qed.

Lemma call_accepts_unchanged_witness :
  call (with_api_key_auth ∅ (Some (lit "s3cret")) (Some (lit "/sse")))
       (http_scope (lit "/sse/messages") [(blit "x-api-key", blit "s3cret")])
  = CallApp (http_scope (lit "/sse/messages") [(blit "x-api-key", blit "s3cret")]).
Proof.
  apply call_accepts_unchanged; [vm_compute; reflexivity | right; reflexivity].
Defined.

(** The dict of the headers, one header more. *)
Lemma headers_dict_snoc (hs : list (bytes * bytes)) (k v : bytes) :
  headers_dict (hs ++ [(k, v)])
  = <[lower (decode_latin1 k) := decode_latin1 v]> (headers_dict hs).
Proof. unfold headers_dict. rewrite fold_left_app. reflexivity. Qed.

(** X6: the header lookup ignores the case of the names sent, and of
    several headers with the configured name the last one decides; a header
    with another name changes nothing. *)
Theorem presented_last_wins (self : ApiKeyAuthMiddleware) (sc : scope)
    (hs : list (bytes * bytes)) (k v : bytes) :
  s_headers sc = Some (hs ++ [(k, v)]) ->
  (lower (decode_latin1 k) = header_name self ->
     presented self sc = Some (decode_latin1 v))
  /\ (lower (decode_latin1 k) <> header_name self ->
     presented self sc = headers_dict hs !! header_name self).
Proof.
  intros Hh. unfold presented. rewrite Hh.
  change (default [] (Some (hs ++ [(k, v)]))) with (hs ++ [(k, v)]).
  rewrite headers_dict_snoc. split.
  - intros <-. apply lookup_insert_eq.
  - intros Hne. apply lookup_insert_ne. exact Hne.
Qed.

Lemma presented_last_wins_witness :
  presented (with_api_key_auth ∅ (Some (lit "s3cret")) None)
    (http_scope (lit "/mcp")
       ([(blit "x-api-key", blit "wrong")] ++ [(blit "X-API-KEY", blit "s3cret")]))
  = Some (decode_latin1 (blit "s3cret")).
Proof.
  refine (proj1 (presented_last_wins
            (with_api_key_auth ∅ (Some (lit "s3cret")) None)
            (http_scope (lit "/mcp")
               ([(blit "x-api-key", blit "wrong")] ++ [(blit "X-API-KEY", blit "s3cret")]))
            [(blit "x-api-key", blit "wrong")] (blit "X-API-KEY") (blit "s3cret")
            eq_refl) _).
  vm_compute. reflexivity.
Defined.

End GatewayMore.

(** ** Facts about the FastMCP server set-up *)
Module McpServerFacts.
Import McpServer.

(** X7: when FastMCP refuses the [authenticate] argument, [create_server]
    wraps the app in the gateway for the header [x-api-key] on [/mcp],
    rewritten to [/sse], and the key the gateway expects is
    [EXPECTED_API_KEY] in every environment, also when that key is the empty
    string and [__init__] falls back to the environment. *)
Theorem create_server_gateway (environ : gmap str str) :
  create_server_auth environ RejectsAuthenticate
  = Some (ByMiddleware
            {| Gateway.header_name := lit "x-api-key";
               Gateway.expected_key := EXPECTED_API_KEY environ;
               Gateway.sse_path := lit "/mcp";
               Gateway.rewrite_to := Some (lit "/sse") |}).
Proof.
  unfold create_server_auth, Gateway.init. do 2 f_equal.
  f_equal. cbn [truthy_opt default from_option id].
  destruct (EXPECTED_API_KEY environ) eqn:E; [|reflexivity].
  cbn [truthy]. exact E.
Qed.

(** X8: the FastMCP server and the HTTP server expect the same key, except
    when [MCP_API_KEY] is set to the empty string: the first then expects
    the empty key, the second ["123"]. *)
Theorem expected_keys_agree (environ : gmap str str) :
  EXPECTED_API_KEY environ = HttpServer.load_api_key environ
  <-> environ !! lit "MCP_API_KEY" <> Some [].
Proof.
  unfold EXPECTED_API_KEY, HttpServer.load_api_key.
  destruct (environ !! lit "MCP_API_KEY") as [[|c k]|]; cbn.
  - split; [discriminate | intros H; destruct H; reflexivity].
  - split; [discriminate | reflexivity].
  - split; [discriminate | reflexivity].
Qed.

(** X9: the callback accepts exactly the contexts whose [headers] dict has
    the entry [x-api-key], spelled so, with the expected key as a string;
    it then returns the session data. A context without [headers], and a
    header under another spelling, are refused. *)
Theorem authenticate_request_accepts (environ : gmap str str) (ctx : context) :
  (authenticate_request environ ctx = Some session
   <-> exists hs, ctx_headers ctx = Some hs
                  /\ hs !! lit "x-api-key" = Some (PStr (EXPECTED_API_KEY environ)))
  /\ (authenticate_request environ ctx = None
      \/ authenticate_request environ ctx = Some session).
Proof.
  unfold authenticate_request, get. split.
  - split.
    + case_bool_decide as H; [discriminate|]. intros _.
      destruct (ctx_headers ctx) as [hs|].
      * exists hs. split; [reflexivity|].
        change (default ∅ (Some hs)) with hs in H.
        destruct (hs !! lit "x-api-key") as [v|]; [|discriminate H].
        change (default PNone (Some v)) with v in H.
        rewrite H. reflexivity.
      * change (default ∅ None) with (∅ : gmap str pyval) in H.
        rewrite lookup_empty in H. discriminate H.
    + intros (hs & -> & Hk).
      change (default ∅ (Some hs)) with hs. rewrite Hk.
      rewrite bool_decide_eq_false_2; [reflexivity|]. intros H. apply H. reflexivity.
  - case_bool_decide; auto.
Qed.

End McpServerFacts.

(** ** More facts about the OAuth client *)
Module OAuthMore.
Import OAuth.

(** The one POST of [exchange_token]. *)
Lemma exchange_token_post (self : DidaOAuthClient) (c : pyval)
    (reply : post_result) :
  did (exchange_token self c reply)
  = [HttpPost TOKEN_URL
       [ (lit "client_id", client_id self);
         (lit "client_secret", client_secret self);
         (lit "code", c);
         (lit "grant_type", PStr (lit "authorization_code"));
         (lit "redirect_uri", redirect_uri self) ]].
Proof.
  unfold exchange_token.
  destruct reply as [|st [| |d]]; cbn [did]; try reflexivity;
    destruct (is_http_error st); try reflexivity.
  destruct (truth (get d (lit "access_token"))); [|reflexivity].
  destruct (truth (refresh_of d) && negb (sliceable_val (refresh_of d))); reflexivity.
Qed.

(** X10: [exchange_token] sends exactly one POST, to the token URL, with the
    client's credentials, the code and the redirect URI, whatever the reply
    is; it returns [True] exactly when the reply has an accepted status and
    is a JSON object with a non-empty [access_token] whose refresh token,
    if not empty, can be sliced; and after a [True] the client gives
    request headers. *)
Theorem exchange_token_outcome (self : DidaOAuthClient) (c : pyval)
    (reply : post_result) :
  did (exchange_token self c reply)
  = [HttpPost TOKEN_URL
       [ (lit "client_id", client_id self);
         (lit "client_secret", client_secret self);
         (lit "code", c);
         (lit "grant_type", PStr (lit "authorization_code"));
         (lit "redirect_uri", redirect_uri self) ]]
  /\ (ret (exchange_token self c reply) = true
      <-> exists st d,
            reply = Response st (Dict d) /\ is_http_error st = false
            /\ truth (get d (lit "access_token")) = true
            /\ (truth (refresh_of d) = true -> sliceable_val (refresh_of d) = true))
  /\ (ret (exchange_token self c reply) = true ->
      is_Some (get_headers (after (exchange_token self c reply)))).
Proof.
  unfold exchange_token, get_headers.
  destruct reply as [|st [| |d]]; cbn [ret did after].
  - split_and!; [reflexivity | | discriminate].
    split; [discriminate | intros (? & ? & ? & _); discriminate].
  - destruct (is_http_error st); cbn [ret did after];
      (split_and!; [reflexivity | | discriminate]);
      (split; [discriminate | intros (? & ? & ? & _); discriminate]).
  - destruct (is_http_error st); cbn [ret did after];
      (split_and!; [reflexivity | | discriminate]);
      (split; [discriminate | intros (? & ? & ? & _); discriminate]).
  - destruct (is_http_error st) eqn:Est; cbn [ret did after].
    { split_and!; [reflexivity | | discriminate].
      split; [discriminate|]. intros (st' & d' & [= <- <-] & E & _). congruence. }
    destruct (truth (get d (lit "access_token"))) eqn:Ea; cbn [ret did after].
    2:{ split_and!; [reflexivity | | discriminate].
        split; [discriminate|]. intros (st' & d' & [= <- <-] & _ & E & _). congruence. }
    destruct (truth (refresh_of d)) eqn:Er;
      destruct (sliceable_val (refresh_of d)) eqn:Es;
      cbn [andb negb ret did after set_tokens access_token];
      (split_and!;
       [ reflexivity
       | first
           [ split; [discriminate|];
             intros (st' & d' & [= <- <-] & _ & _ & H);
             specialize (H Er); congruence
           | split; [|reflexivity];
             intros _; exists st, d; split_and!; auto; intros; congruence ]
       | first
           [ discriminate
           | intros _; rewrite Ea; cbn [negb]; eexists; reflexivity ] ]).
Qed.

(** X11: [refresh_access_token] returns [True] exactly when the client has
    a refresh token and the reply has an accepted status and is a JSON
    object; on [False] the client is as before; on [True] the access token
    is the reply's [access_token] entry, whatever it is, and the refresh
    token is replaced only by a non-empty one, so a client that could
    refresh can refresh again. *)
Theorem refresh_access_token_outcome (self : DidaOAuthClient) (reply : post_result) :
  (ret (refresh_access_token self reply) = true
   <-> truth (refresh_token self) = true
       /\ exists st d, reply = Response st (Dict d) /\ is_http_error st = false)
  /\ (ret (refresh_access_token self reply) = false ->
      after (refresh_access_token self reply) = self)
  /\ (forall st d, ret (refresh_access_token self reply) = true ->
      reply = Response st (Dict d) ->
      access_token (after (refresh_access_token self reply))
      = get d (lit "access_token")
      /\ refresh_token (after (refresh_access_token self reply))
         = (if truth (get d (lit "refresh_token"))
            then get d (lit "refresh_token") else refresh_token self))
  /\ truth (refresh_token (after (refresh_access_token self reply)))
     = truth (refresh_token self).
Proof.
  unfold refresh_access_token.
  destruct (truth (refresh_token self)) eqn:Er; cbn [negb ret after].
  2:{ split_and!; try discriminate; auto.
      split; [discriminate | intros [? _]; discriminate]. }
  destruct reply as [|st [| |d]]; cbn [ret after].
  - split_and!; try discriminate; auto.
    split; [discriminate | intros (_ & ? & ? & ? & _); discriminate].
  - destruct (is_http_error st); cbn [ret after];
      (split_and!; try discriminate; auto);
      (split; [discriminate | intros (_ & ? & ? & ? & _); discriminate]).
  - destruct (is_http_error st); cbn [ret after];
      (split_and!; try discriminate; auto);
      (split; [discriminate | intros (_ & ? & ? & ? & _); discriminate]).
  - destruct (is_http_error st) eqn:Est; cbn [ret after].
    { split_and!; try discriminate; auto.
      split; [discriminate|]. intros (_ & st' & d' & [= <- <-] & E). congruence. }
    split_and!.
    + split; [intros _; split; [reflexivity | exists st, d; auto] | reflexivity].
    + discriminate.
    + intros st' d' _ [= <- <-]. split; reflexivity.
    + cbn [set_tokens refresh_token].
      destruct (truth (get d (lit "refresh_token"))) eqn:En; [exact En | exact Er].
Qed.

(** X12: a refresh whose accepted reply carries no [access_token] is
    reported as a success, and leaves a client that has no access token:
    [get_headers] raises afterwards. *)
Theorem refresh_may_drop_access_token (self : DidaOAuthClient) (st : Z)
    (d : gmap str pyval) :
  truth (refresh_token self) = true ->
  is_http_error st = false ->
  truth (get d (lit "access_token")) = false ->
  ret (refresh_access_token self (Response st (Dict d))) = true
  /\ get_headers (after (refresh_access_token self (Response st (Dict d)))) = None.
Proof.
  intros Hr Hs Ha. unfold refresh_access_token, get_headers.
  rewrite Hr, Hs. cbn [negb ret after set_tokens access_token].
  rewrite Ha. split; reflexivity.
Qed.

Lemma refresh_may_drop_access_token_witness :
  ret (refresh_access_token
         (set_tokens fresh (PStr (lit "old")) (PStr (lit "r1")))
         (Response 200 (Dict {[ lit "token_type" := PStr (lit "bearer") ]}))) = true
  /\ get_headers
       (after (refresh_access_token
                 (set_tokens fresh (PStr (lit "old")) (PStr (lit "r1")))
                 (Response 200 (Dict {[ lit "token_type" := PStr (lit "bearer") ]}))))
     = None.
Proof.
  apply refresh_may_drop_access_token; reflexivity.
Defined.

End OAuthMore.

(** ** Facts about the flows *)
Module FlowsFacts.
Import OAuth Flows.

(** *** The values [parse_qs] gives are not empty *)

Lemma utf8_decode_nonempty (bs : list N) : bs <> [] -> utf8_decode bs <> [].
Proof.
  destruct bs as [|b1 r1]; [congruence|]. intros _.
  cbn [utf8_decode]. repeat case_match; discriminate.
Qed.

Lemma unquote_to_bytes_nonempty (s : str) : s <> [] -> unquote_to_bytes s <> [].
Proof.
  destruct s as [|c s]; [congruence|]. intros _.
  cbn [unquote_to_bytes]. repeat case_match; discriminate.
Qed.

Lemma unquote_runs_nonempty (s run : str) :
  run <> [] \/ s <> [] -> unquote_runs run s <> [].
Proof.
  revert run. induction s as [|c s IH]; intros run H; cbn [unquote_runs].
  - destruct H as [H|H]; [|congruence].
    apply utf8_decode_nonempty, unquote_to_bytes_nonempty.
    intros E. apply H. apply (f_equal (@rev N)) in E.
    rewrite rev_involutive in E. exact E.
  - destruct (c <? 128).
    + apply IH. left. discriminate.
    + intros E. apply app_eq_nil in E as [_ E]. discriminate E.
Qed.

Lemma unquote_nonempty (s : str) : s <> [] -> unquote s <> [].
Proof.
  intros H. unfold unquote. destruct (has_char 37 s); [|exact H].
  apply unquote_runs_nonempty. right. exact H.
Qed.

Lemma parse_field_value (name_value n v : str) :
  In (n, v) (parse_field name_value) -> v <> [].
Proof.
  unfold parse_field.
  destruct (split_once 61 name_value) as [[n0 v0]|]; [|intros []].
  destruct v0 as [|c v0]; [intros []|]. cbn [truthy].
  intros [[= _ <-]|[]]. apply unquote_nonempty.
  unfold plus_to_space. discriminate.
Qed.

Lemma parse_qsl_value (qs n v : str) : In (n, v) (parse_qsl qs) -> v <> [].
Proof.
  unfold parse_qsl. destruct (truthy qs); [|intros []].
  intros H. apply in_concat in H as (l & Hl & Hv).
  apply in_map_iff in Hl as (nv & <- & _).
  exact (parse_field_value _ _ _ Hv).
Qed.

(** Every value [parse_qs] lists is a non-empty string. *)
Lemma parse_qs_nonblank (qs k : str) (vs : list str) :
  parse_qs qs !! k = Some vs -> List.Forall (fun v => v <> []) vs.
Proof.
  unfold parse_qs.
  assert (H : forall (l : list (str * str)) (m : gmap str (list str)),
            (forall n v, In (n, v) l -> v <> []) ->
            (forall k vs, m !! k = Some vs -> List.Forall (fun v => v <> []) vs) ->
            forall k vs,
              fold_left (fun m nv => <[nv.1 := default [] (m !! nv.1) ++ [nv.2]]> m) l m
                !! k = Some vs -> List.Forall (fun v => v <> []) vs).
  { induction l as [|[n v] l IH]; intros m Hl Hm k' vs'; cbn [fold_left]; [apply Hm|].
    apply IH; [intros n' v' Hin; apply (Hl n' v'); right; exact Hin|].
    intros k2 vs2. cbn [fst snd].
    destruct (decide (n = k2)) as [<- | Hne].
    - rewrite lookup_insert_eq. intros [= <-].
      apply List.Forall_app. split.
      + destruct (m !! n) as [old|] eqn:E; [exact (Hm n old E) | constructor].
      + constructor; [|constructor]. apply (Hl n v). left. reflexivity.
    - rewrite lookup_insert_ne by exact Hne. apply Hm. }
  apply H.
  - apply parse_qsl_value.
  - intros k' vs'. rewrite lookup_empty. discriminate.
Qed.

(** X13: [authorize] with its listener. When no request of the window
    carries a [code], it returns [False] without a POST and leaves the
    client as it was; otherwise it exchanges the first value of the [code]
    of the first request that carries one, a non-empty string, whatever
    comes later. *)
Theorem authorize_listening_outcome (urlparse_query : str -> option str)
    (self : DidaOAuthClient) (incoming : list Callback.request)
    (reply : post_result) :
  (List.Forall (fun req => ~ Callback.carries_code urlparse_query req) incoming
   /\ authorize_listening urlparse_query self incoming reply = Result false self [])
  \/ (exists pre req post c,
        incoming = pre ++ req :: post
        /\ List.Forall (fun req => ~ Callback.carries_code urlparse_query req) pre
        /\ Callback.code_of urlparse_query req = Some c
        /\ c <> []
        /\ authorize_listening urlparse_query self incoming reply
           = exchange_token self (PStr c) reply).
Proof.
  unfold authorize_listening, Callback.start_callback_server.
  destruct (CallbackFacts.run_server_trace urlparse_query incoming)
    as [[Hall Hrun] | (pre & req & post & c & E & Hall & Hp & Hcode & Hrun)].
  - left. rewrite Hrun. split; [exact Hall | reflexivity].
  - right. exists pre, req, post, c. rewrite Hrun. cbn [fst authorize].
    assert (Hc : c <> []).
    { unfold Callback.code_of, Callback.params_of in Hcode.
      destruct req as [status|command path]; [discriminate Hcode|].
      destruct (bool_decide (command = lit "GET")); [|discriminate Hcode].
      destruct (urlparse_query path) as [q|]; [|discriminate Hcode].
      cbn [fmap option_fmap option_map mbind option_bind] in Hcode.
      destruct (parse_qs q !! lit "code") as [vs|] eqn:Hv;
        [|discriminate Hcode].
      destruct vs as [|c0 vs]; [discriminate Hcode|]. injection Hcode as <-.
      pose proof (parse_qs_nonblank _ _ _ Hv) as Hf.
      inversion Hf. assumption. }
    split_and!; auto.
    destruct c; [congruence | reflexivity].
Qed.

(** X14: [GET /debug/api-key] always reports the key as set, since the
    module has replaced a missing or empty [MCP_API_KEY] by ["123"]; it
    gives the length of the key, and as preview the whole key when it has
    at most ten characters, its first ten characters and an ellipsis
    otherwise. *)
Theorem debug_api_key_discloses (environ : gmap str str) :
  api_key_set (debug_api_key (Some (HttpServer.load_api_key environ))) = true
  /\ api_key_length (debug_api_key (Some (HttpServer.load_api_key environ)))
     = length (HttpServer.load_api_key environ)
  /\ ((length (HttpServer.load_api_key environ) <= 10)%nat ->
      api_key_preview (debug_api_key (Some (HttpServer.load_api_key environ)))
      = Some (HttpServer.load_api_key environ))
  /\ ((10 < length (HttpServer.load_api_key environ))%nat ->
      api_key_preview (debug_api_key (Some (HttpServer.load_api_key environ)))
      = Some (take 10 (HttpServer.load_api_key environ) ++ lit "..."))
  /\ (environ !! lit "MCP_API_KEY" = None ->
      api_key_preview (debug_api_key (Some (HttpServer.load_api_key environ)))
      = Some (lit "123")).
Proof.
  pose proof (HttpServerFacts.load_api_key_truthy environ) as Ht.
  unfold debug_api_key. cbn [api_key_set api_key_length api_key_preview truthy_opt].
  rewrite Ht. cbn [andb default from_option id].
  split_and!; try reflexivity.
  - intros H. rewrite bool_decide_eq_false_2 by lia. reflexivity.
  - intros H. rewrite bool_decide_eq_true_2 by lia. reflexivity.
  - intros H. unfold HttpServer.load_api_key. rewrite H. reflexivity.
Qed.




Lemma load_tokens_did (self : DidaOAuthClient) (file : config_file) :
  did (load_tokens self file) = [].
Proof. destruct file; reflexivity. Qed.

(** X16: [test_oauth_flow] with a stored token. When [oauth_config.json]
    holds a non-empty access token the flow sends no POST and writes
    nothing, whatever the listener and the token endpoint would give, and
    the test request carries the stored token. *)
Theorem test_oauth_flow_stored_token (environ : gmap str str)
    (client_id client_secret : pyval) (config : gmap str pyval)
    (authorization_code : option str) (reply : post_result) (io_ok : bool) :
  truth (get config (lit "access_token")) = true ->
  sliceable_val (get config (lit "access_token")) = true ->
  did (test_oauth_flow environ client_id client_secret (Config config)
         authorization_code reply io_ok) = []
  /\ ret (test_oauth_flow environ client_id client_secret (Config config)
            authorization_code reply io_ok)
     = Some [ (lit "Authorization",
               lit "Bearer " ++ to_str (get config (lit "access_token")));
              (lit "Content-Type", lit "application/json") ].
Proof.
  intros Ht Hs. unfold test_oauth_flow, load_tokens, get_headers.
  cbn [ret after did access_token]. rewrite Ht. cbn [negb]. rewrite Hs.
  split; reflexivity.
Qed.

Lemma test_oauth_flow_stored_token_witness :
  did (test_oauth_flow ∅ (PStr (lit "id")) (PStr (lit "secret"))
         (Config {[ lit "access_token" := PStr (lit "stored") ]})
         (Some (lit "code")) TransportError true) = [].
Proof.
  refine (proj1 (test_oauth_flow_stored_token ∅ (PStr (lit "id")) (PStr (lit "secret"))
                   {[ lit "access_token" := PStr (lit "stored") ]}
                   (Some (lit "code")) TransportError true _ _)); reflexivity.
Defined.

(** X17: [test_oauth_flow] writes a config file only to [oauth_config.json],
    only when loading gave no token and the listener gave a code, and only
    with the access token that the token endpoint has just issued. *)
Theorem test_oauth_flow_writes_issued (environ : gmap str str)
    (client_id client_secret : pyval) (file : config_file)
    (authorization_code : option str) (reply : post_result) (io_ok : bool)
    (path : str) (config : list (str * pyval)) (complete : bool) :
  In (WriteConfig path config complete)
     (did (test_oauth_flow environ client_id client_secret file
             authorization_code reply io_ok)) ->
  path = lit "oauth_config.json" /\ complete = io_ok
  /\ ret (load_tokens
            (init environ client_id client_secret
               (PStr (lit "http://localhost:8000/callback"))) file) = false
  /\ (exists c, authorization_code = Some c /\ c <> [])
  /\ exists tok, issued_by reply = [tok] /\ truth tok = true
                 /\ In (lit "access_token", tok) config.
Proof.
  unfold test_oauth_flow.
  set (oauth_client := init environ client_id client_secret _).
  assert (Hapi : forall (c : DidaOAuthClient) (es : list effect),
            did (match get_headers c with
                 | Some headers =>
                     if sliceable_val (access_token c)
                     then Result (Some headers) c es else Result None c es
                 | None => Result None c es
                 end) = es).
  { intros c es. destruct (get_headers c); [destruct (sliceable_val _)|]; reflexivity. }
  destruct (ret (load_tokens oauth_client file)) eqn:Hl.
  { rewrite Hapi, load_tokens_did. intros []. }
  rewrite load_tokens_did. cbn [app].
  set (c0 := after (load_tokens oauth_client file)).
  unfold authorize.
  destruct authorization_code as [c|]; [|intros []].
  destruct c as [|ch c]; [intros []|]. cbn [truthy].
  set (a := exchange_token c0 (PStr (ch :: c)) reply).
  destruct (ret a) eqn:Ha.
  - rewrite Hapi.
    destruct (OAuthFacts.exchange_token_true _ _ _ Ha) as [Ht Hi]. fold a in Ht, Hi.
    pose proof (OAuthMore.exchange_token_post c0 (PStr (ch :: c)) reply) as Hd.
    fold a in Hd. rewrite Hd. unfold save_tokens. rewrite Ht. cbn [negb did app].
    intros [H|[H|[]]]; [discriminate H|]. injection H as <- <- <-.
    split_and!; try reflexivity.
    + eexists. split; [reflexivity | discriminate].
    + exists (access_token (after a)). split_and!; auto.
      right. right. right. left. reflexivity.
  - cbn [did].
    pose proof (OAuthMore.exchange_token_post c0 (PStr (ch :: c)) reply) as Hd.
    fold a in Hd. rewrite Hd. intros [H|[]]. discriminate H.
Qed.

Lemma test_oauth_flow_writes_issued_witness :
  lit "oauth_config.json" = lit "oauth_config.json" /\ true = true
  /\ ret (load_tokens
            (init ∅ (PStr (lit "id")) (PStr (lit "secret"))
               (PStr (lit "http://localhost:8000/callback"))) Missing) = false
  /\ (exists c, Some (lit "code") = Some c /\ c <> [])
  /\ exists tok,
       issued_by (Response 200 (Dict {[ lit "access_token" := PStr (lit "new") ]}))
       = [tok] /\ truth tok = true
       /\ In (lit "access_token", tok)
             [ (lit "client_id", PStr (lit "id"));
               (lit "client_secret", PStr (lit "secret"));
               (lit "redirect_uri", PStr (lit "http://localhost:8000/callback"));
               (lit "access_token", PStr (lit "new"));
               (lit "refresh_token", PNone) ].
Proof.
  apply (test_oauth_flow_writes_issued ∅ (PStr (lit "id")) (PStr (lit "secret"))
           Missing (Some (lit "code"))
           (Response 200 (Dict {[ lit "access_token" := PStr (lit "new") ]})) true).
  vm_compute. right. left. reflexivity.
Defined.

(** X18: how [main] of the authentication script ends. It calls
    [sys.exit(1)] without any effect when a credential is missing or empty
    in the environment. Whenever it calls [sys.exit(1)], [.env] is as
    before and [write_env_tokens] was not called. Whenever it ends in
    another way, it made one POST and one call of [write_env_tokens], with
    the access token the token endpoint has just issued, and [.env] is what
    that call left; it returns exactly when that call returned and the
    access token can be sliced, and ends with an uncaught exception
    otherwise. The exit status of the process is 0 exactly when [main]
    returns, and 1 after [sys.exit(1)] and after an uncaught exception
    alike. *)
Theorem main_outcome (environ : gmap str str) (port : Z) (dotenv_file : EnvFile.file)
    (authorization_code : option str) (reply : post_result) :
  (truth (env_get environ (lit "DIDA_CLIENT_ID")) = false
   \/ truth (env_get environ (lit "DIDA_CLIENT_SECRET")) = false ->
   ended (main environ port dotenv_file authorization_code reply) = Exit 1
   /\ effects (main environ port dotenv_file authorization_code reply) = [])
  /\ (ended (main environ port dotenv_file authorization_code reply) = Exit 1 ->
      dotenv (main environ port dotenv_file authorization_code reply) = dotenv_file
      /\ forall access refresh complete,
           ~ In (WriteEnv access refresh complete)
                (effects (main environ port dotenv_file authorization_code reply)))
  /\ (ended (main environ port dotenv_file authorization_code reply) <> Exit 1 ->
      exists tok refresh url data,
        issued_by reply = [tok] /\ truth tok = true
        /\ effects (main environ port dotenv_file authorization_code reply)
           = [HttpPost url data;
              WriteEnv tok refresh
                (EnvFile.returned (EnvFile.write_env_tokens dotenv_file tok refresh))]
        /\ dotenv (main environ port dotenv_file authorization_code reply)
           = EnvFile.file_after (EnvFile.write_env_tokens dotenv_file tok refresh)
        /\ (ended (main environ port dotenv_file authorization_code reply) = Returns
            <-> EnvFile.returned (EnvFile.write_env_tokens dotenv_file tok refresh)
                = true
                /\ sliceable_val tok = true)
        /\ (ended (main environ port dotenv_file authorization_code reply) = Uncaught
            <-> ~ (EnvFile.returned (EnvFile.write_env_tokens dotenv_file tok refresh)
                   = true
                   /\ sliceable_val tok = true)))
  /\ (exit_status (ended (main environ port dotenv_file authorization_code reply)) = 0%Z
      <-> ended (main environ port dotenv_file authorization_code reply) = Returns)
  /\ (exit_status (ended (main environ port dotenv_file authorization_code reply)) = 1%Z
      <-> ended (main environ port dotenv_file authorization_code reply) = Exit 1
          \/ ended (main environ port dotenv_file authorization_code reply) = Uncaught).
Proof.
  assert (Hstatus : forall e,
            (e = Exit 1 \/ e = Returns \/ e = Uncaught) ->
            (exit_status e = 0%Z <-> e = Returns)
            /\ (exit_status e = 1%Z <-> e = Exit 1 \/ e = Uncaught)).
  { intros e [-> | [-> | ->]]; cbn; split; split;
      solve [ discriminate | reflexivity | auto
            | intros [H|H]; discriminate H ]. }
  unfold main.
  destruct (truth (env_get environ (lit "DIDA_CLIENT_ID"))) eqn:Hi;
    [destruct (truth (env_get environ (lit "DIDA_CLIENT_SECRET"))) eqn:Hs|];
    cbn [negb orb].
  2,3: cbn [ended effects dotenv];
       destruct (Hstatus (Exit 1)) as [H0 H1]; [auto|];
       split_and!;
         [ intros _; split; reflexivity
         | intros _; split; [reflexivity | intros ? ? ? []]
         | intros H; destruct H; reflexivity
         | exact H0 | exact H1 ].
  set (oauth_client := init environ _ _ _).
  unfold authorize.
  destruct authorization_code as [[|ch c]|]; cbn [truthy ret after did].
  1,3: cbn [ended effects dotenv];
       destruct (Hstatus (Exit 1)) as [H0 H1]; [auto|];
       split_and!;
         [ intros [H|H]; discriminate H
         | intros _; split; [reflexivity | intros ? ? ? []]
         | intros H; destruct H; reflexivity
         | exact H0 | exact H1 ].
  set (a := exchange_token oauth_client (PStr (ch :: c)) reply).
  pose proof (OAuthMore.exchange_token_post oauth_client (PStr (ch :: c)) reply) as Hd.
  fold a in Hd.
  destruct (ret a) eqn:Ha; cbn [ended effects dotenv].
  - destruct (OAuthFacts.exchange_token_true _ _ _ Ha) as [Ht Hiss].
    fold a in Ht, Hiss. rewrite Hd.
    set (w := EnvFile.write_env_tokens dotenv_file (access_token (after a))
                (refresh_token (after a))).
    set (ok := EnvFile.returned w && sliceable_val (access_token (after a))).
    assert (Hok : ok = true
                  <-> EnvFile.returned w = true
                      /\ sliceable_val (access_token (after a)) = true).
    { unfold ok. rewrite andb_true_iff. reflexivity. }
    destruct (Hstatus (if ok then Returns else Uncaught)) as [H0 H1];
      [destruct ok; auto|].
    split_and!.
    + intros [H|H]; discriminate H.
    + destruct ok; discriminate.
    + intros _. exists (access_token (after a)), (refresh_token (after a)).
      do 2 eexists. split_and!; [exact Hiss | exact Ht | reflexivity | reflexivity | |].
      * fold w. rewrite <- Hok. destruct ok; split; try reflexivity; discriminate.
      * fold w. rewrite <- Hok. destruct ok; split.
        -- discriminate.
        -- intros H. destruct H. reflexivity.
        -- intros _ H. discriminate H.
        -- reflexivity.
    + exact H0.
    + exact H1.
  - rewrite Hd. destruct (Hstatus (Exit 1)) as [H0 H1]; [auto|]. split_and!.
    + intros [H|H]; discriminate H.
    + intros _. split; [reflexivity|]. intros ? ? ? [H|[]]. discriminate H.
    + intros H. destruct H. reflexivity.
    + exact H0.
    + exact H1.
Qed.

(** X19: the script end to end. With both credentials in the environment,
    a code from the listener, a [.env] that is UTF-8 (or none), and an
    accepted reply whose access token is a non-empty string without line
    boundary and without surrogate (the refresh token such a string, or
    missing), [main] returns normally; it has posted the credentials, the
    code and the redirect URI (the one of the environment, or
    [http://localhost:<port>/callback]) to the token URL; and [.env] reads
    as its former unrelated lines followed by the two token lines. *)
Theorem main_stores_issued_tokens (environ : gmap str str) (port : Z)
    (dotenv_file : EnvFile.file) (text : option str)
    (cid csec code a : str) (r : option str) (st : Z) (d : gmap str pyval) :
  environ !! lit "DIDA_CLIENT_ID" = Some cid -> cid <> [] ->
  environ !! lit "DIDA_CLIENT_SECRET" = Some csec -> csec <> [] ->
  code <> [] -> is_http_error st = false ->
  get d (lit "access_token") = PStr a -> a <> [] ->
  refresh_of d = EnvFile.opt r ->
  one_line a = true -> one_line (default [] r) = true ->
  utf8_encodable a = true -> utf8_encodable (default [] r) = true ->
  EnvFile.file_text dotenv_file = Some text ->
  ended (main environ port dotenv_file (Some code) (Response st (Dict d))) = Returns
  /\ effects (main environ port dotenv_file (Some code) (Response st (Dict d)))
     = [ HttpPost TOKEN_URL
           [ (lit "client_id", PStr cid);
             (lit "client_secret", PStr csec);
             (lit "code", PStr code);
             (lit "grant_type", PStr (lit "authorization_code"));
             (lit "redirect_uri",
              PStr (default (lit "http://localhost:" ++ str_of_int port
                             ++ lit "/callback")
                      (environ !! lit "DIDA_REDIRECT_URI"))) ];
         WriteEnv (PStr a) (EnvFile.opt r) true ]
  /\ exists text',
       EnvFile.file_text
         (dotenv (main environ port dotenv_file (Some code) (Response st (Dict d))))
       = Some (Some text')
       /\ EnvFile.read_lines (Some text')
          = List.filter EnvFile.unrelated (EnvFile.read_lines text)
            ++ [ EnvFile.ACCESS ++ lit "=" ++ a;
                 EnvFile.REFRESH ++ lit "=" ++ default [] r ].
Proof.
  intros Hi Hin Hs Hsn Hc Hst Ha Han Hr La Lr Ea Er Hf.
  destruct (EnvFileFacts.written_file dotenv_file text a r La Lr Ea Er Hf)
    as (b & _ & Hw & Hread).
  unfold main, env_get. rewrite Hi, Hs. cbn [truth].
  destruct cid as [|c1 cid]; [congruence|].
  destruct csec as [|c2 csec]; [congruence|].
  destruct code as [|c3 code]; [congruence|].
  destruct a as [|c4 a]; [congruence|].
  cbn [truthy negb orb authorize].
  set (oauth_client := init environ _ _ _).
  rewrite (OAuthMore.exchange_token_post oauth_client).
  assert (Hret : ret (exchange_token oauth_client (PStr (c3 :: code))
                        (Response st (Dict d))) = true).
  { unfold exchange_token. rewrite Hst, Ha, Hr. cbn [truth truthy].
    destruct r as [[|? ?]|]; reflexivity. }
  rewrite Hret, (OAuthFacts.exchange_token_after _ _ _ _ Hst), Ha, Hr.
  cbn [set_tokens access_token refresh_token]. rewrite Hw.
  cbn [EnvFile.returned EnvFile.raised EnvFile.file_after sliceable_val andb
       ended effects dotenv].
  split_and!.
  - reflexivity.
  - unfold oauth_client, init, env_get. rewrite Hi, Hs.
    cbn [client_id client_secret redirect_uri por truth truthy app].
    destruct (environ !! lit "DIDA_REDIRECT_URI"); reflexivity.
  - eexists. split; [exact Hread|].
    apply EnvFileFacts.written_lines; assumption.
Qed.

Lemma main_stores_issued_tokens_witness :
  ended (main {[ lit "DIDA_CLIENT_ID" := lit "id";
                 lit "DIDA_CLIENT_SECRET" := lit "secret" ]}
           38000
           (Some (blit "FOO=1" ++ [Byte.x0a] ++ blit "DIDA_ACCESS_TOKEN=old"
                  ++ [Byte.x0a]))
           (Some (lit "code"))
           (Response 200 (Dict {[ lit "access_token" := PStr (lit "abc");
                                  lit "refresh_token" := PStr (lit "def") ]})))
  = Returns.
Proof.
  refine (proj1 (main_stores_issued_tokens
                   {[ lit "DIDA_CLIENT_ID" := lit "id";
                      lit "DIDA_CLIENT_SECRET" := lit "secret" ]}
                   38000
                   (Some (blit "FOO=1" ++ [Byte.x0a] ++ blit "DIDA_ACCESS_TOKEN=old"
                          ++ [Byte.x0a]))
                   (Some (lit "FOO=1" ++ [10] ++ lit "DIDA_ACCESS_TOKEN=old" ++ [10]))
                   (lit "id") (lit "secret") (lit "code") (lit "abc") (Some (lit "def"))
                   200 {[ lit "access_token" := PStr (lit "abc");
                          lit "refresh_token" := PStr (lit "def") ]}
                   _ _ _ _ _ _ _ _ _ _ _ _ _ _));
    try reflexivity; discriminate.
Defined.

(** The same run, computed: the file written and the redirect URI posted;
    and a run whose reply carries a number as access token: [.env] is
    written, and the script ends with an uncaught exception. *)
Example main_example :
  let m := main {[ lit "DIDA_CLIENT_ID" := lit "id";
                   lit "DIDA_CLIENT_SECRET" := lit "secret" ]}
             38000
             (Some (blit "FOO=1" ++ [Byte.x0a] ++ blit "DIDA_ACCESS_TOKEN=old"
                    ++ [Byte.x0a]))
             (Some (lit "code"))
             (Response 200 (Dict {[ lit "access_token" := PStr (lit "abc");
                                    lit "refresh_token" := PStr (lit "def") ]})) in
  let m' := main {[ lit "DIDA_CLIENT_ID" := lit "id";
                    lit "DIDA_CLIENT_SECRET" := lit "secret" ]}
              38000 None (Some (lit "code"))
              (Response 200
                 (Dict {[ lit "access_token" := POther (lit "12345") true false ]})) in
  dotenv m = Some (blit "FOO=1" ++ [Byte.x0a] ++ blit "DIDA_ACCESS_TOKEN=abc"
                   ++ [Byte.x0a] ++ blit "DIDA_REFRESH_TOKEN=def" ++ [Byte.x0a])
  /\ In (lit "redirect_uri", PStr (lit "http://localhost:38000/callback"))
        match effects m with
        | HttpPost _ data :: _ => data
        | _ => []
        end
  /\ ended m' = Uncaught /\ exit_status (ended m') = 1%Z
  /\ dotenv m' = Some (blit "DIDA_ACCESS_TOKEN=12345" ++ [Byte.x0a]
                       ++ blit "DIDA_REFRESH_TOKEN=" ++ [Byte.x0a]).
Proof.
  vm_compute. split_and!; try reflexivity. do 4 right; left; reflexivity.
Qed.

End FlowsFacts.

(** ** More facts about the [.env] writer *)
Module EnvFileMore.
Import EnvFile.

(** X20: [upsert] for any key and value. Afterwards the lines of the key are
    the one new line, or none when the value is [None]; the other lines are
    the former ones, in their order; and the new line is the last. *)
Theorem upsert_single_line (key : str) (value : pyval) (lines : list str) :
  List.filter (fun ln => startswith ln (key ++ lit "=")) (upsert key value lines)
  = match value with
    | PNone => []
    | _ => [key ++ lit "=" ++ to_str value]
    end
  /\ List.filter (fun ln => negb (startswith ln (key ++ lit "=")))
       (upsert key value lines)
     = List.filter (fun ln => negb (startswith ln (key ++ lit "="))) lines
  /\ (value <> PNone ->
      list.last (upsert key value lines) = Some (key ++ lit "=" ++ to_str value)).
Proof.
  set (other := fun ln => negb (startswith ln (key ++ lit "="))).
  assert (Hnone : List.filter (fun ln => startswith ln (key ++ lit "="))
                    (List.filter other lines) = []).
  { apply (filter_none _ other); [apply forallb_filter|].
    intros x Hx. apply negb_true_iff in Hx. exact Hx. }
  assert (Hall : List.filter other (List.filter other lines) = List.filter other lines).
  { apply filter_all, forallb_filter. }
  assert (Hline : forall v, startswith (key ++ lit "=" ++ v) (key ++ lit "=") = true).
  { intros v. rewrite app_assoc. apply startswith_app. }
  unfold upsert. fold other.
  destruct value as [|v|text t sl].
  - split_and!; [exact Hnone | exact Hall | congruence].
  - rewrite !List.filter_app, Hnone, Hall. cbn [List.filter]. unfold other at 2.
    rewrite Hline. cbn [negb app]. rewrite app_nil_r.
    split_and!; [reflexivity | reflexivity | intros _; apply last_snoc].
  - rewrite !List.filter_app, Hnone, Hall. cbn [List.filter]. unfold other at 2.
    rewrite Hline. cbn [negb app]. rewrite app_nil_r.
    split_and!; [reflexivity | reflexivity | intros _; apply last_snoc].
Qed.

(** X21: the last write wins. For a file that is UTF-8 (or no file) and
    tokens without line boundary and without surrogate, both calls return,
    and writing tokens over the file that an earlier call wrote leaves the
    bytes that writing them over the original file leaves: nothing of the
    earlier tokens stays. *)
Theorem write_env_tokens_last_wins (f : file) (text : option str) (a a' : str)
    (r r' : option str) :
  one_line a = true -> one_line (default [] r) = true ->
  utf8_encodable a = true -> utf8_encodable (default [] r) = true ->
  one_line a' = true -> one_line (default [] r') = true ->
  utf8_encodable a' = true -> utf8_encodable (default [] r') = true ->
  file_text f = Some text ->
  exists b b',
    write_env_tokens f (PStr a) (opt r) = {| raised := None; file_after := Some b |}
    /\ write_env_tokens (Some b) (PStr a') (opt r')
       = {| raised := None; file_after := Some b' |}
    /\ write_env_tokens f (PStr a') (opt r')
       = {| raised := None; file_after := Some b' |}.
Proof.
  intros Ha Hr Ea Er Ha' Hr' Ea' Er' Hf.
  destruct (EnvFileFacts.written_file f text a r Ha Hr Ea Er Hf)
    as (b & _ & Hw & Hread).
  destruct (EnvFileFacts.written_file (Some b) _ a' r' Ha' Hr' Ea' Er' Hread)
    as (b2 & Hb2 & Hw2 & _).
  destruct (EnvFileFacts.written_file f text a' r' Ha' Hr' Ea' Er' Hf)
    as (b' & Hb' & Hw' & _).
  assert (E : new_content (Some (new_content text (PStr a) (opt r))) (PStr a') (opt r')
              = new_content text (PStr a') (opt r')).
  { rewrite (EnvFileFacts.written_text (Some _)) by assumption.
    rewrite EnvFileFacts.written_lines by assumption.
    rewrite List.filter_app, EnvFileFacts.key_lines_related, app_nil_r.
    rewrite (filter_all _ _ (EnvFileFacts.unrelated_filtered _)).
    symmetry. apply EnvFileFacts.written_text; assumption. }
  rewrite E, Hb' in Hb2. injection Hb2 as <-.
  exists b, b'. split_and!; assumption.
Qed.

Lemma write_env_tokens_last_wins_witness :
  exists b b',
    write_env_tokens (Some (blit "FOO=1" ++ [Byte.x0a])) (PStr (lit "old"))
      (opt (Some (lit "r1")))
    = {| raised := None; file_after := Some b |}
    /\ write_env_tokens (Some b) (PStr (lit "new")) (opt None)
       = {| raised := None; file_after := Some b' |}
    /\ write_env_tokens (Some (blit "FOO=1" ++ [Byte.x0a])) (PStr (lit "new")) (opt None)
       = {| raised := None; file_after := Some b' |}.
Proof.
  apply (write_env_tokens_last_wins _ (Some (lit "FOO=1" ++ [10]))); reflexivity.
Defined.

End EnvFileMore.

(** ** Facts about the JSON-RPC endpoint *)
Module RpcFacts.
Import Rpc.

(** *** [get_tags] *)

Lemma add_tags_elem (tags agg : list str) (x : str) :
  x ∈ fold_left add_tag tags agg <-> x ∈ agg \/ x ∈ tags.
Proof.
  revert agg. induction tags as [|t tags IH]; intros agg; cbn [fold_left].
  - split; [auto | intros [H|H]; [exact H | inversion H]].
  - rewrite IH. unfold add_tag. case_bool_decide as Ht.
    + split; [intros [H|H]; [left; exact H | right; right; exact H]|].
      intros [H|H]; [left; exact H|].
      apply elem_of_cons in H as [-> | H]; [left; exact Ht | right; exact H].
    + rewrite elem_of_app, list_elem_of_singleton, elem_of_cons. tauto.
Qed.

Lemma add_tags_NoDup (tags agg : list str) :
  NoDup agg -> NoDup (fold_left add_tag tags agg).
Proof.
  revert agg. induction tags as [|t tags IH]; intros agg H; cbn [fold_left];
    [exact H|].
  apply IH. unfold add_tag. case_bool_decide; [exact H|].
  apply list.NoDup_app. split_and!; [exact H | | apply NoDup_singleton].
  intros x Hx Hx'. apply list_elem_of_singleton in Hx' as ->. contradiction.
Qed.

Lemma add_tags_prefix (tags agg : list str) :
  agg `prefix_of` fold_left add_tag tags agg.
Proof.
  revert agg. induction tags as [|t tags IH]; intros agg; cbn [fold_left];
    [reflexivity|].
  etrans; [|apply IH]. unfold add_tag. case_bool_decide; [reflexivity|].
  by exists [t].
Qed.

Lemma tasks_elem (ts : list (option (list str))) (agg : list str) (x : str) :
  x ∈ fold_left (fun agg t => fold_left add_tag (default [] t) agg) ts agg
  <-> x ∈ agg \/ exists tags, Some tags ∈ ts /\ x ∈ tags.
Proof.
  revert agg. induction ts as [|t ts IH]; intros agg; cbn [fold_left].
  - split; [auto | intros [H | (tags & H & _)]; [exact H | inversion H]].
  - rewrite IH, add_tags_elem. split.
    + intros [[H|H] | (tags & Hin & Hx)].
      * left. exact H.
      * right. destruct t as [tags|]; [|inversion H].
        exists tags. split; [left | exact H].
      * right. exists tags. split; [right; exact Hin | exact Hx].
    + intros [H | (tags & Hin & Hx)]; [left; left; exact H|].
      apply elem_of_cons in Hin as [<- | Hin].
      * left. right. exact Hx.
      * right. exists tags. split; assumption.
Qed.

Lemma tasks_NoDup (ts : list (option (list str))) (agg : list str) :
  NoDup agg ->
  NoDup (fold_left (fun agg t => fold_left add_tag (default [] t) agg) ts agg).
Proof.
  revert agg. induction ts as [|t ts IH]; intros agg H; cbn [fold_left];
    [exact H|].
  apply IH, add_tags_NoDup, H.
Qed.

Lemma tasks_prefix (ts : list (option (list str))) (agg : list str) :
  agg `prefix_of`
    fold_left (fun agg t => fold_left add_tag (default [] t) agg) ts agg.
Proof.
  revert agg. induction ts as [|t ts IH]; intros agg; cbn [fold_left];
    [reflexivity|].
  etrans; [apply add_tags_prefix | apply IH].
Qed.

(** X22: the inline [get_tags]. The names it returns are distinct; a name is
    returned exactly when some task carries it as a tag; the names come in
    the order of their first occurrence, so the answer for a longer task
    list extends the answer for a shorter one; and when the adapter fails
    the answer is the empty list. *)
Theorem get_tags_distinct (list_tasks : option (list (option (list str)))) :
  NoDup (get_tags list_tasks)
  /\ (forall n, n ∈ get_tags list_tasks
                <-> exists tags, Some tags ∈ default [] list_tasks /\ n ∈ tags)
  /\ (forall pre post, list_tasks = Some (pre ++ post) ->
        get_tags (Some pre) `prefix_of` get_tags list_tasks)
  /\ get_tags None = [].
Proof.
  unfold get_tags. split_and!.
  - apply tasks_NoDup, NoDup_nil_2.
  - intros n. rewrite tasks_elem. split; [intros [H|H]; [inversion H | exact H] | auto].
  - intros pre post ->. cbn [default from_option id].
    rewrite fold_left_app. apply tasks_prefix.
  - reflexivity.
Qed.

(** *** The dispatcher and the advertised tools *)

(** X23: what [tools/list] advertises, [tools/call] serves. For each of the
    tools of [get_tool_definitions] and every [arguments] dict, [call_tool]
    runs the inline [get_tags], or calls one function of the logic layer
    with, in the declared order, the values of exactly the declared
    properties, a missing one replaced by the declared default or by [None];
    a required property is not asked for. The advertised names are distinct
    and every required name is a declared property. *)
Theorem advertised_tools_are_dispatched :
  Forall (fun t => forall text d,
            (properties t = []
             /\ dispatch (JStr (tool_name t)) (JObject text d) = InlineTags)
            \/ exists fn args,
                 dispatch (JStr (tool_name t)) (JObject text d) = Invoke fn args
                 /\ map snd args
                    = map (fun p => jget_default d (prop_name p)
                                      (default JNull (prop_default p)))
                          (properties t))
         get_tool_definitions
  /\ NoDup (map tool_name get_tool_definitions)
  /\ Forall (fun t => Forall (fun r => r ∈ map prop_name (properties t)) (required t))
            get_tool_definitions.
Proof.
  split_and!.
  - unfold get_tool_definitions.
    repeat (apply List.Forall_cons;
            [ intros text d;
              first [ left; split; reflexivity
                    | right; eexists _, _; split; reflexivity ] |]).
    apply List.Forall_nil.
  - apply (bool_decide_unpack _). vm_compute. exact I.
  - apply (bool_decide_unpack _). vm_compute. exact I.
Qed.

(** The tests of the chain, for a name that is none of the advertised. *)
Lemma not_advertised (s x : str) :
  s ∉ map tool_name get_tool_definitions ->
  bool_decide (x ∈ map tool_name get_tool_definitions) = true ->
  bool_decide (s = x) = false.
Proof.
  intros Hs Hx. apply bool_decide_eq_false_2. intros ->.
  apply Hs. apply bool_decide_eq_true in Hx. exact Hx.
Qed.

Lemma dispatch_unknown (name arguments : json) :
  (forall s, name = JStr s -> s ∉ map tool_name get_tool_definitions) ->
  dispatch name arguments = Fails (lit "Unknown tool: " ++ text_of name).
Proof.
  intros H. unfold dispatch.
  destruct name as [|s|text d|type_name text]; try reflexivity.
  unfold is_str.
  rewrite !(not_advertised s _ (H s eq_refl)) by (vm_compute; reflexivity).
  reflexivity.
Qed.

(** X24: a tool that is not advertised. Whatever the arguments and whatever
    the logic layer would do, [call_tool] raises, no function of the logic
    layer is called, and the endpoint answers with the error code -32603
    and the text that names the tool twice; the name may be any JSON value,
    also a missing one. *)
Theorem unknown_tool_is_an_internal_error
    (logic : logic_fn -> list (option str * json) -> logic_result)
    (list_tasks : option (list (option (list str))))
    (text : str) (body : gmap str json) (ptext : str) (params : gmap str json) :
  is_str (jget body (lit "jsonrpc")) (lit "2.0") = true ->
  is_str (jget body (lit "method")) (lit "tools/call") = true ->
  body !! lit "params" = Some (JObject ptext params) ->
  (forall s, jget params (lit "name") = JStr s ->
             s ∉ map tool_name get_tool_definitions) ->
  handle logic list_tasks (Json (JObject text body))
  = RpcError (jget body (lit "id")) (-32603)
      (lit "Error processing tool call '" ++ text_of (jget params (lit "name"))
       ++ lit "': Unknown tool: " ++ text_of (jget params (lit "name"))).
Proof.
  intros Hj Hm Hp Hn. unfold handle. rewrite Hj.
  assert (Hl : is_str (jget body (lit "method")) (lit "tools/list") = false).
  { destruct (jget body (lit "method")) as [|m| |]; try discriminate Hm.
    unfold is_str in *. apply bool_decide_eq_true in Hm as ->. reflexivity. }
  rewrite Hl, Hm. unfold jget_default at 1. rewrite Hp. cbn [default from_option id].
  unfold call_tool. rewrite (dispatch_unknown _ _ Hn). reflexivity.
Qed.

Lemma unknown_tool_is_an_internal_error_witness :
  handle (fun _ _ => Value (lit "[]")) None
    (Json (JObject []
       {[ lit "jsonrpc" := JStr (lit "2.0"); lit "id" := JOther (lit "int") (lit "7");
          lit "method" := JStr (lit "tools/call");
          lit "params" := JObject [] {[ lit "name" := JStr (lit "get_task") ]} ]}))
  = RpcError (jget {[ lit "jsonrpc" := JStr (lit "2.0");
                      lit "id" := JOther (lit "int") (lit "7");
                      lit "method" := JStr (lit "tools/call");
                      lit "params" := JObject [] {[ lit "name" := JStr (lit "get_task") ]} ]}
                   (lit "id"))
      (-32603)
      (lit "Error processing tool call '"
       ++ text_of (jget {[ lit "name" := JStr (lit "get_task") ]} (lit "name"))
       ++ lit "': Unknown tool: "
       ++ text_of (jget {[ lit "name" := JStr (lit "get_task") ]} (lit "name"))).
Proof.
  apply (unknown_tool_is_an_internal_error _ _ _ _ []
           {[ lit "name" := JStr (lit "get_task") ]});
    [reflexivity | reflexivity | reflexivity |].
  intros s H. vm_compute in H. injection H as <-.
  apply (bool_decide_unpack _). vm_compute. exact I.
Defined.

(** X25: [arguments] that are not a dict. A tool that declares no property
    ([get_projects], [get_tags]) is served as with [{}]; for every other
    advertised tool [call_tool] fails on the first [arguments.get] and no
    function of the logic layer is called. *)
Theorem arguments_not_a_dict :
  Forall (fun t => forall arguments,
            (forall text d, arguments <> JObject text d) ->
            (properties t = []
             /\ dispatch (JStr (tool_name t)) arguments
                = dispatch (JStr (tool_name t)) empty_dict)
            \/ (properties t <> []
                /\ dispatch (JStr (tool_name t)) arguments
                   = Fails (no_get arguments)))
         get_tool_definitions.
Proof.
  unfold get_tool_definitions.
  repeat (apply List.Forall_cons;
          [ intros arguments Ha;
            first [ left; split; reflexivity
                  | right; split; [discriminate|];
                    destruct arguments as [|s|text d|type_name text];
                    [reflexivity | reflexivity | destruct (Ha text d eq_refl)
                    | reflexivity] ] |]).
  apply List.Forall_nil.
Qed.

(** *** The handler *)

(** X26: the answers to a JSON object. The handler never lets an exception
    out. Without [jsonrpc] equal to ["2.0"] it returns the plain dict that
    says so. Otherwise the answer carries the [id] of the request ([None]
    when there is none); it is a result only for one of the three methods;
    the code of an error is -32601, with the text naming the method, exactly
    when the method is none of the three, and -32603 for a failed
    [tools/call]. *)
Theorem handle_object
    (logic : logic_fn -> list (option str * json) -> logic_result)
    (list_tasks : option (list (option (list str))))
    (text : str) (body : gmap str json) :
  match handle logic list_tasks (Json (JObject text body)) with
  | InvalidRequest => is_str (jget body (lit "jsonrpc")) (lit "2.0") = false
  | RpcResult id _ =>
      id = jget body (lit "id")
      /\ is_str (jget body (lit "jsonrpc")) (lit "2.0") = true
      /\ (is_str (jget body (lit "method")) (lit "tools/list")
          || is_str (jget body (lit "method")) (lit "tools/call")
          || is_str (jget body (lit "method")) (lit "initialize")) = true
  | RpcError id code message =>
      id = jget body (lit "id")
      /\ is_str (jget body (lit "jsonrpc")) (lit "2.0") = true
      /\ ((code = (-32601)%Z
           /\ message = lit "Method not found: " ++ text_of (jget body (lit "method"))
           /\ (is_str (jget body (lit "method")) (lit "tools/list")
               || is_str (jget body (lit "method")) (lit "tools/call")
               || is_str (jget body (lit "method")) (lit "initialize")) = false)
          \/ (code = (-32603)%Z
              /\ is_str (jget body (lit "method")) (lit "tools/call") = true))
  | Uncaught _ => False
  end.
Proof.
  unfold handle.
  destruct (is_str (jget body (lit "jsonrpc")) (lit "2.0")); [|reflexivity].
  destruct (is_str (jget body (lit "method")) (lit "tools/list")) eqn:Hl;
    [split_and!; reflexivity|].
  destruct (is_str (jget body (lit "method")) (lit "tools/call")) eqn:Hc.
  - destruct (jget_default body (lit "params") empty_dict) as [|s|ptext params|tn tx];
      try (split_and!; try reflexivity; right; split; reflexivity).
    destruct (call_tool logic list_tasks _ _);
      try (split_and!; reflexivity);
      (split_and!; try reflexivity; right; split; reflexivity).
  - destruct (is_str (jget body (lit "method")) (lit "initialize")) eqn:Hi.
    + split_and!; reflexivity.
    + split_and!; try reflexivity. left. split_and!; reflexivity.
Qed.

(** X27: a body that is JSON but not an object (a list, a string, a number,
    [null]). The first [body.get] raises, and so does the [body.get] of the
    [except] clause: the exception leaves the handler and no JSON-RPC answer
    is returned. A body that is not JSON at all is answered, with the code
    -32603 and the [id] [None]. *)
Theorem body_not_an_object
    (logic : logic_fn -> list (option str * json) -> logic_result)
    (list_tasks : option (list (option (list str)))) (v : json) :
  (forall text d, v <> JObject text d) ->
  handle logic list_tasks (Json v) = Uncaught (no_get v)
  /\ forall message,
       handle logic list_tasks (BadJson message) = RpcError JNull (-32603) message.
Proof.
  intros H. split; [|reflexivity].
  destruct v as [|s|text d|tn tx]; try reflexivity. destruct (H text d eq_refl).
Qed.

Lemma body_not_an_object_witness :
  handle (fun _ _ => Value (lit "[]")) None (Json (JOther (lit "list") (lit "[]")))
  = Uncaught (lit "'list' object has no attribute 'get'").
Proof.
  refine (proj1 (body_not_an_object _ _ (JOther (lit "list") (lit "[]")) _)).
  discriminate.
Defined.

End RpcFacts.
